(** * court-snatcher: the two-phase booking script [booking.py]

    A shallow embedding of [LightningFastBooking] and the properties of
    its timing-critical engine: the fallback click primitive
    ([wait_and_click]), the deadline wait ([wait_until_target_time]),
    the result check ([check_result]), the search over the court and
    time-slot grid ([_execute_booking]) and the top-level [run].

    The browser, the clock, the random generator, the terminal and
    the [re] library are outside the program.  They are modelled by a
    [World]: a family of
    oracles that answer each external call from the history of
    everything that happened so far.  A method of the class becomes a
    function in the monad [M], which threads that history and the three
    ways a Python call can end: a value, a raised exception, or no end
    at all (the spin-wait). *)

From Stdlib Require Import ZArith Lia Ascii String DecimalString.
From stdpp Require Import base list strings.

Open Scope Z_scope.

(** ** Strings *)

(** The double-quote character, for selectors such as [text="去支付"]. *)
Definition dq : string := String (Ascii.ascii_of_nat 34) EmptyString.

(** [s.split(sep)] for a one-character separator. *)
Fixpoint split (sep : ascii) (s : string) : list string :=
  match s with
  | EmptyString => [EmptyString]
  | String c s' =>
      if Ascii.eqb c sep then EmptyString :: split sep s'
      else match split sep s' with
           | [] => [String c EmptyString]
           | w :: ws => String c w :: ws
           end
  end.

(** [s.endswith(suffix)]. *)
Definition endswith (s suffix : string) : bool :=
  let n := String.length s in
  let k := String.length suffix in
  if (k <=? n)%nat then String.eqb (String.substring (n - k) k s) suffix
  else false.

(** Strings are sequences of bytes, the UTF-8 encoding of Python's
    text.  [space_width s] is the number of bytes of the blank at the
    head of [s], and [0] when [s] does not start with a blank.  The
    blanks are the characters of [str.isspace]: U+0009 to U+000D,
    U+001C to U+0020, U+0085, U+00A0, U+1680, U+2000 to U+200A, U+2028,
    U+2029, U+202F, U+205F and U+3000. *)
Definition byte_at (n : nat) (s : string) : nat :=
  match String.get n s with
  | Some c => Ascii.nat_of_ascii c
  | None => 0%nat
  end.

Definition space_width (s : string) : nat :=
  match s with
  | EmptyString => 0%nat
  | _ =>
      let b0 := byte_at 0 s in
      let b1 := byte_at 1 s in
      let b2 := byte_at 2 s in
      if ((9 <=? b0) && (b0 <=? 13) || (28 <=? b0) && (b0 <=? 32))%nat
      then 1%nat
      else if ((b0 =? 194) && ((b1 =? 133) || (b1 =? 160)))%nat
      then 2%nat
      else if ((b0 =? 225) && (b1 =? 154) && (b2 =? 128))%nat
      then 3%nat
      else if ((b0 =? 226) && (b1 =? 128)
               && ((128 <=? b2) && (b2 <=? 138)
                   || (b2 =? 168) || (b2 =? 169) || (b2 =? 175)))%nat
      then 3%nat
      else if ((b0 =? 226) && (b1 =? 129) && (b2 =? 159))%nat
      then 3%nat
      else if ((b0 =? 227) && (b1 =? 128) && (b2 =? 128))%nat
      then 3%nat
      else 0%nat
  end.

(** [s[n:]]. *)
Fixpoint drop_bytes (n : nat) (s : string) : string :=
  match n, s with
  | S n', String _ s' => drop_bytes n' s'
  | _, _ => s
  end.

(** Drops the blanks at the head of [s]; the fuel bounds their
    number. *)
Fixpoint drop_spaces (fuel : nat) (s : string) : string :=
  match fuel with
  | O => s
  | S fuel' =>
      match space_width s with
      | O => s
      | w => drop_spaces fuel' (drop_bytes w s)
      end
  end.

Definition lstrip (s : string) : string := drop_spaces (String.length s) s.

(** [s] is made of blanks only. *)
Definition all_spaces (s : string) : bool :=
  match lstrip s with
  | EmptyString => true
  | _ => false
  end.

Fixpoint rstrip (s : string) : string :=
  match s with
  | EmptyString => EmptyString
  | String c s' => if all_spaces s then EmptyString else String c (rstrip s')
  end.

(** [s.strip()]. *)
Definition strip (s : string) : string := rstrip (lstrip s).

(** [str(n)] for an integer. *)
Definition str_of_Z (z : Z) : string := NilZero.string_of_int (Z.to_int z).

(** The format [{n:02d}]: decimal, zero-padded to two characters. *)
Definition fmt_02d (z : Z) : string :=
  if (0 <=? z) && (z <? 10) then "0" +:+ str_of_Z z else str_of_Z z.

Definition digit_of (c : ascii) : option Z :=
  let n := Ascii.nat_of_ascii c in
  if ((48 <=? n) && (n <=? 57))%nat then Some (Z.of_nat n - 48) else None.

Fixpoint int_digits (acc : Z) (s : string) : option Z :=
  match s with
  | EmptyString => Some acc
  | String c s' =>
      match digit_of c with
      | Some d => int_digits (10 * acc + d) s'
      | None => None
      end
  end.

(** ** Exceptions and results *)

(** The exception classes that occur.  Every one is a subclass of
    Python's [Exception], so every [except Exception] clause catches
    it. *)
Inductive exn :=
  | Exception (msg : string)
  | ValueError (msg : string)
  | IndexError (msg : string)
  | AttributeError (msg : string)
  | DriverError (msg : string).

(** [str(e)]. *)
Definition exn_str (e : exn) : string :=
  match e with
  | Exception m | ValueError m | IndexError m
  | AttributeError m | DriverError m => m
  end.

(** How a call ends.  [Diverge] stands for a loop that was still
    running when the fuel given to it ran out. *)
Inductive result (A : Type) :=
  | Ok (a : A)
  | Raise (e : exn)
  | Diverge.
Arguments Ok {A} a.
Arguments Raise {A} e.
Arguments Diverge {A}.

(** [int(s)] on a string of decimal digits (the only form the
    configuration has); anything else is a [ValueError]. *)
Definition int (s : string) : result Z :=
  match s with
  | EmptyString => Raise (ValueError "invalid literal for int()")
  | _ => match int_digits 0 s with
         | Some z => Ok z
         | None => Raise (ValueError "invalid literal for int()")
         end
  end.

(** [l[i]] on a list: an [IndexError] out of range. *)
Definition index {A} (l : list A) (i : nat) : result A :=
  match l !! i with
  | Some x => Ok x
  | None => Raise (IndexError "list index out of range")
  end.

(** Sequencing of pure steps that can raise. *)
Definition rbind {A B} (r : result A) (k : A -> result B) : result B :=
  match r with
  | Ok a => k a
  | Raise e => Raise e
  | Diverge => Diverge
  end.

Declare Scope result_scope.
Delimit Scope result_scope with result.
Bind Scope result_scope with result.
Notation "x <- c1 ;; c2" := (rbind c1 (fun x => c2))
  (at level 100, c1 at next level, right associativity) : result_scope.

(** ** Dates and times

    A [datetime] value: the date as its proleptic Gregorian ordinal
    (day 1 is 0001-01-01, as [date.toordinal] counts) and the four
    time-of-day fields.  Python orders datetimes field by field, the
    date first; ordinals grow with the date, so the order below is the
    same one. *)
Record datetime := {
  date_ord : Z;
  hour : Z;
  minute : Z;
  second : Z;
  microsecond : Z
}.

Definition cmp_then (c d : comparison) : comparison :=
  match c with Eq => d | _ => c end.

Definition dt_cmp (a b : datetime) : comparison :=
  cmp_then (date_ord a ?= date_ord b)
  (cmp_then (hour a ?= hour b)
  (cmp_then (minute a ?= minute b)
  (cmp_then (second a ?= second b)
            (microsecond a ?= microsecond b)))).

(** [a < b] and [a >= b] on datetimes. *)
Definition dt_lt (a b : datetime) : bool :=
  match dt_cmp a b with Lt => true | _ => false end.
Definition dt_ge (a b : datetime) : bool := negb (dt_lt a b).

(** [d + timedelta(days=n)]. *)
Definition add_days (d : datetime) (n : Z) : datetime :=
  {| date_ord := date_ord d + n; hour := hour d; minute := minute d;
     second := second d; microsecond := microsecond d |}.

(** [d.replace(hour=h, minute=m, second=s, microsecond=us)]: the date
    is kept; a field out of its range is a [ValueError]. *)
Definition replace_time (d : datetime) (h m s us : Z) : result datetime :=
  if (0 <=? h) && (h <? 24) && (0 <=? m) && (m <? 60)
     && (0 <=? s) && (s <? 60) && (0 <=? us) && (us <? 1000000)
  then Ok {| date_ord := date_ord d; hour := h; minute := m;
             second := s; microsecond := us |}
  else Raise (ValueError "field out of range").

(** The calendar of Python's [datetime] module ([_ord2ymd]): from an
    ordinal to year, month and day. *)
Definition _DI400Y : Z := 146097.
Definition _DI100Y : Z := 36524.
Definition _DI4Y : Z := 1461.

Definition _DAYS_IN_MONTH (m : Z) : Z :=
  match m with
  | 1 => 31 | 2 => 28 | 3 => 31 | 4 => 30 | 5 => 31 | 6 => 30
  | 7 => 31 | 8 => 31 | 9 => 30 | 10 => 31 | 11 => 30 | 12 => 31
  | _ => -1
  end.

Definition _DAYS_BEFORE_MONTH (m : Z) : Z :=
  match m with
  | 1 => 0 | 2 => 31 | 3 => 59 | 4 => 90 | 5 => 120 | 6 => 151
  | 7 => 181 | 8 => 212 | 9 => 243 | 10 => 273 | 11 => 304 | 12 => 334
  | _ => -1
  end.

Definition _ord2ymd (n : Z) : Z * Z * Z :=
  let n := n - 1 in
  let n400 := n / _DI400Y in
  let n := n mod _DI400Y in
  let year := n400 * 400 + 1 in
  let n100 := n / _DI100Y in
  let n := n mod _DI100Y in
  let n4 := n / _DI4Y in
  let n := n mod _DI4Y in
  let n1 := n / 365 in
  let n := n mod 365 in
  let year := year + n100 * 100 + n4 * 4 + n1 in
  if (n1 =? 4) || (n100 =? 4) then (year - 1, 12, 31)
  else
    let leapyear := (n1 =? 3) && (negb (n4 =? 24) || (n100 =? 3)) in
    let month := Z.shiftr (n + 50) 5 in
    let preceding :=
      _DAYS_BEFORE_MONTH month
      + (if (2 <? month) && leapyear then 1 else 0) in
    if n <? preceding then
      let month := month - 1 in
      let preceding :=
        preceding
        - (_DAYS_IN_MONTH month
           + (if (month =? 2) && leapyear then 1 else 0)) in
      (year, month, n - preceding + 1)
    else (year, month, n - preceding + 1).

(** [d.day]. *)
Definition day (d : datetime) : Z := snd (_ord2ymd (date_ord d)).

(** ** The external world *)

(** Calls on the page that return nothing: they complete or raise.
    Timeouts are in milliseconds; [None] is Playwright's default. *)
Inductive page_op :=
  | Goto (url : string)
  | WaitFor (selector : string) (timeout : Z)
  | ScrollIntoView (selector : string)
  | Click (selector : string) (timeout : option Z)
  | ClickText (regex : string) (timeout : Z)
  | Fill (selector : string) (value : string)
  | WaitForLoadState (state : string) (timeout : Z)
  | Screenshot (path : string).

(** Calls on the Playwright session and the terminal. *)
Inductive session_op :=
  | PlaywrightStart
  | PlaywrightStop
  | Launch (headless : bool)
  | NewContext
  | NewPage
  | BrowserClose
  | Print (text : string)
  | Input (prompt : string).

Inductive level := INFO | WARNING | ERROR.

(** The log records, one constructor for each [logging] call of the
    class, carrying the values its message is formatted with. *)
Inductive message :=
  | MsgCI
  | MsgWaiting (target : datetime)
  | MsgTimeUp
  | MsgClicked (selector : string)
  | MsgClickFailed (selector : string)
  | MsgNoneClickable (selector_list : list string)
  | MsgLogin
  | MsgFilled
  | MsgLoggedIn
  | MsgLoginSkipped
  | MsgPhase1
  | MsgOpenHome
  | MsgVenue (venue_name : string)
  | MsgBookingButton
  | MsgPhase1Complete
  | MsgPhase2
  | MsgSelectDate
  | MsgOrder (n : nat) (all_combinations : list (string * string))
  | MsgTrying (court time_slot : string)
  | MsgNoCourtTab (court : string)
  | MsgLocked (court time_slot : string)
  | MsgSubmitFailed
  | MsgComboFailed (court time_slot error_summary : string)
  | MsgChecking
  | MsgSuccess (text : string)
  | MsgNoSuccess
  | MsgFailure (text : string)
  | MsgUncertain
  | MsgPayTry
  | MsgPayClicked
  | MsgPayMissing
  | MsgElapsed (booking_time : Z)
  | MsgUnexpected (text : string)
  | MsgShotSaved (path : string)
  | MsgShotFailed (text : string).

(** What happened, in order: every external call with its answer, and
    every log record. *)
Inductive event :=
  | EvPage (o : page_op) (r : option exn)
  | EvUrl (url : string)
  | EvText (selector : string) (timeout : Z) (r : exn + option string)
  | EvNow (d : datetime)
  | EvTime (t : Z)
  | EvSleep (us : Z)
  | EvUniform (lo hi v : Z)
  | EvRandbelow (n k : nat)
  | EvSession (o : session_op) (r : option exn)
  | EvLog (l : level) (m : message).

Definition history := list event.

(** The world answers each call from the history so far.  A page or
    session call answers [None] when it completes and [Some e] when it
    raises [e]; [text_content] answers the text, Python's [None], or
    an exception.  [wall] is [datetime.now()], [timer] is
    [time.time()] in microseconds, and [entropy] is the raw draw behind
    [random.uniform] and [random.shuffle].  [re_answer] is the verdict
    of [re.compile] on a pattern, [None] when it compiles and the
    error it raises otherwise; the library is a function of the
    pattern alone. *)
Record World := {
  page_answer : history -> page_op -> option exn;
  url_answer : history -> string;
  text_answer : history -> string -> Z -> exn + option string;
  wall : history -> datetime;
  timer : history -> Z;
  entropy : history -> nat;
  session_answer : history -> session_op -> option exn;
  re_answer : string -> option exn
}.

(** ** The monad of a method call *)

Definition M (A : Type) : Type := history -> result A * history.

Definition ret {A} (a : A) : M A := fun h => (Ok a, h).

Definition bind {A B} (m : M A) (k : A -> M B) : M B :=
  fun h =>
    match m h with
    | (Ok a, h') => k a h'
    | (Raise e, h') => (Raise e, h')
    | (Diverge, h') => (Diverge, h')
    end.

Definition raise {A} (e : exn) : M A := fun h => (Raise e, h).

Definition diverge {A} : M A := fun h => (Diverge, h).

(** A pure step that can raise, such as [int] or an index. *)
Definition lift {A} (r : result A) : M A := fun h => (r, h).

(** [try: body except Exception as e: handler e]. *)
Definition try_except {A} (body : M A) (handler : exn -> M A) : M A :=
  fun h =>
    match body h with
    | (Raise e, h') => handler e h'
    | other => other
    end.

(** [try: body finally: cleanup].  The cleanup runs when the body
    returns and when it raises; an exception of the cleanup replaces
    the outcome of the body. *)
Definition try_finally {A} (body : M A) (cleanup : M unit) : M A :=
  fun h =>
    match body h with
    | (Diverge, h') => (Diverge, h')
    | (r, h') =>
        match cleanup h' with
        | (Ok _, h'') => (r, h'')
        | (Raise e, h'') => (Raise e, h'')
        | (Diverge, h'') => (Diverge, h'')
        end
    end.

Declare Scope booking_scope.
Delimit Scope booking_scope with booking.
Notation "x <- c1 ;; c2" := (bind c1 (fun x => c2))
  (at level 100, c1 at next level, right associativity) : booking_scope.
Notation "c1 ;; c2" := (bind c1 (fun _ => c2))
  (at level 100, c2 at level 200, right associativity) : booking_scope.
Open Scope booking_scope.

(** ** The instance *)

(** The attributes [__init__] sets. *)
Record Self := {
  username : option string;
  password : option string;
  venue_name : string;
  courts : list string;
  time_slots : list string;
  target_time : string;
  is_ci : bool
}.

(** Python's truth value of [os.getenv(..)]: [None] and the empty
    string are false. *)
Definition truthy (v : option string) : bool :=
  match v with
  | None => false
  | Some EmptyString => false
  | Some _ => true
  end.

Definition missing_credentials : string :=
  "BOOKING_USERNAME or BOOKING_PASSWORD not found".

(** [LightningFastBooking()], given the process environment. *)
Definition __init__ (getenv : string -> option string) : result Self :=
  let username := getenv "BOOKING_USERNAME" in
  let password := getenv "BOOKING_PASSWORD" in
  if negb (truthy username) || negb (truthy password) then
    Raise (ValueError missing_credentials)
  else
    Ok {| username := username;
          password := password;
          venue_name := "望江西区网球场";
          courts := ["1号场"; "2号场"; "3号场"];
          time_slots := ["18:00-19:00"; "19:00-20:00"; "20:00-21:00"];
          target_time := "08:30:00:000";
          is_ci := match getenv "GITHUB_ACTIONS" with
                   | Some v => String.eqb v "true"
                   | None => false
                   end |}.

Inductive profile := Normal | Fast.

(** The flow of one pass through the body of a [for] loop. *)
Inductive flow (A : Type) :=
  | Continue
  | Return (a : A).
Arguments Continue {A}.
Arguments Return {A} a.

Section Program.

Variable world : World.

(** *** External calls *)

Definition page (o : page_op) : M unit :=
  fun h =>
    let r := page_answer world h o in
    (match r with None => Ok tt | Some e => Raise e end, h ++ [EvPage o r]).

Definition session (o : session_op) : M unit :=
  fun h =>
    let r := session_answer world h o in
    (match r with None => Ok tt | Some e => Raise e end,
     h ++ [EvSession o r]).

(** [page.url]. *)
Definition page_url : M string :=
  fun h => let u := url_answer world h in (Ok u, h ++ [EvUrl u]).

(** [locator.text_content(timeout=..)]. *)
Definition text_content (selector : string) (timeout : Z)
  : M (option string) :=
  fun h =>
    let r := text_answer world h selector timeout in
    (match r with inl e => Raise e | inr t => Ok t end,
     h ++ [EvText selector timeout r]).

(** [re.compile(pattern)]; the pattern stands for the compiled
    object. *)
Definition re_compile (pattern : string) : result string :=
  match re_answer world pattern with
  | None => Ok pattern
  | Some e => Raise e
  end.

(** [datetime.now()]. *)
Definition now : M datetime :=
  fun h => let d := wall world h in (Ok d, h ++ [EvNow d]).

(** [time.time()], in microseconds. *)
Definition time : M Z :=
  fun h => let t := timer world h in (Ok t, h ++ [EvTime t]).

(** [time.sleep(..)], in microseconds. *)
Definition sleep (us : Z) : M unit :=
  fun h => (Ok tt, h ++ [EvSleep us]).

(** [random.uniform(lo, hi)], on a grid of microseconds. *)
Definition uniform (lo hi : Z) : M Z :=
  fun h =>
    let v := lo + Z.of_nat (entropy world h) mod (hi - lo + 1) in
    (Ok v, h ++ [EvUniform lo hi v]).

(** The generator's [randbelow(n)]: a draw in [0, n). *)
Definition randbelow (n : nat) : M nat :=
  fun h =>
    let k := (entropy world h mod n)%nat in
    (Ok k, h ++ [EvRandbelow n k]).

Definition log (l : level) (m : message) : M unit :=
  fun h => (Ok tt, h ++ [EvLog l m]).

(** *** [random_delay] *)

Definition random_delay (self : Self) (p : profile) : M unit :=
  if is_ci self then sleep 200000
  else
    let '(min_sec, max_sec) :=
      match p with
      | Fast => (100000, 300000)
      | Normal => (500000, 1200000)
      end in
    delay <- uniform min_sec max_sec ;;
    sleep delay.

(** *** [wait_until_target_time] *)

(** The target of the wait: today's date at the configured time of
    day, one day later when that moment is not ahead of [d]. *)
Definition target_of (self : Self) (d : datetime) : result datetime :=
  let time_parts := split ":" (target_time self) in
  (p0 <- index time_parts 0 ;; h <- int p0 ;;
   p1 <- index time_parts 1 ;; m <- int p1 ;;
   p2 <- index time_parts 2 ;; s <- int p2 ;;
   p3 <- index time_parts 3 ;; ms <- int p3 ;;
   target <- replace_time d h m s (ms * 1000) ;;
   Ok (if dt_ge d target then add_days target 1 else target))%result.

(** [while datetime.now() < target: time.sleep(0.001)].  The fuel
    bounds the number of times the condition is evaluated. *)
Fixpoint spin (fuel : nat) (target : datetime) : M unit :=
  match fuel with
  | O => diverge
  | S fuel' =>
      d <- now ;;
      if dt_lt d target then sleep 1000 ;; spin fuel' target
      else ret tt
  end.

Definition wait_until_target_time (self : Self) (fuel : nat) : M unit :=
  if is_ci self then log INFO MsgCI
  else
    d <- now ;;
    target <- lift (target_of self d) ;;
    log INFO (MsgWaiting target) ;;
    spin fuel target ;;
    log INFO MsgTimeUp.

(** *** [wait_and_click] *)

(** The body of the [try] for one selector. *)
Definition click_candidate (self : Self) (selector : string) (timeout : Z)
  : M unit :=
  page (WaitFor selector timeout) ;;
  page (ScrollIntoView selector) ;;
  url <- page_url ;;
  random_delay self (if endswith url "booking" then Fast else Normal) ;;
  page (Click selector None) ;;
  log INFO (MsgClicked selector).

(** The loop over the selectors that remain; [selector_list] is the
    whole list, for the last log record. *)
Fixpoint click_first (self : Self) (selector_list rest : list string)
    (timeout : Z) : M bool :=
  match rest with
  | [] => log ERROR (MsgNoneClickable selector_list) ;; ret false
  | selector :: rest' =>
      f <- try_except
             (click_candidate self selector timeout ;; ret (Return true))
             (fun _ => log WARNING (MsgClickFailed selector) ;; ret Continue) ;;
      match f with
      | Return b => ret b
      | Continue => click_first self selector_list rest' timeout
      end
  end.

Definition wait_and_click (self : Self) (selector_list : list string)
    (timeout : Z) : M bool :=
  click_first self selector_list selector_list timeout.


(** *** [do_login] and [_login_and_prepare] *)

Definition quoted (s : string) : string := dq +:+ s +:+ dq.

Definition do_login (self : Self) : M unit :=
  log INFO MsgLogin ;;
  clicked <- wait_and_click self ["text=" +:+ quoted "校外人员登录"] 5000 ;;
  if negb clicked then raise (Exception "点击'校外人员登录'失败")
  else
    (if truthy (username self) && truthy (password self) then
       page (Fill ("input[type=" +:+ quoted "text" +:+ "]")
                  (default "" (username self))) ;;
       page (Fill ("input[type=" +:+ quoted "password" +:+ "]")
                  (default "" (password self))) ;;
       random_delay self Normal ;;
       log INFO MsgFilled ;;
       clicked <- wait_and_click self
                    ["uni-button:has-text(" +:+ quoted "立即登录" +:+ ")"]
                    5000 ;;
       if negb clicked then raise (Exception "点击'立即登录'按钮失败")
       else log INFO MsgLoggedIn
     else log WARNING MsgLoginSkipped) ;;
    page (WaitForLoadState "networkidle" 10000).

Definition _login_and_prepare (self : Self) : M unit :=
  log INFO MsgPhase1 ;;
  log INFO MsgOpenHome ;;
  page (Goto "http://cgzx.scu.edu.cn/venue/") ;;
  do_login self ;;
  log INFO (MsgVenue (venue_name self)) ;;
  clicked <- wait_and_click self ["text=" +:+ quoted (venue_name self)] 5000 ;;
  if negb clicked then
    raise (Exception ("选择场馆 '" +:+ venue_name self +:+ "' 失败"))
  else
    random_delay self Normal ;;
    let booking_selectors :=
      ["uni-button:has-text(" +:+ quoted "场馆预约" +:+ ")";
       "text=场馆预约"; "uni-button"] in
    log INFO MsgBookingButton ;;
    clicked <- wait_and_click self booking_selectors 5000 ;;
    if negb clicked then raise (Exception "点击'场馆预约'按钮失败")
    else log INFO MsgPhase1Complete.

(** *** [check_result] and [go_to_payment] *)

Definition success_pattern : string := "text=/预约成功|提交成功/".
Definition error_pattern : string :=
  "text=/失败|错误|超限|频繁|取消.*次|已达上限/".

(** [t.strip()] on what [text_content] returned: Python's [None] has
    no such method. *)
Definition strip_text (t : option string) : M string :=
  match t with
  | Some s => ret (strip s)
  | None => raise (AttributeError "'NoneType' object has no attribute 'strip'")
  end.

Definition check_result : M bool :=
  log INFO MsgChecking ;;
  try_except
    (page (WaitFor success_pattern 4000) ;;
     t <- text_content success_pattern 500 ;;
     s <- strip_text t ;;
     log INFO (MsgSuccess s) ;;
     ret true)
    (fun _ =>
       log INFO MsgNoSuccess ;;
       try_except
         (page (WaitFor error_pattern 1000) ;;
          error_message <- text_content error_pattern 500 ;;
          s <- strip_text error_message ;;
          log ERROR (MsgFailure s) ;;
          ret false)
         (fun _ => log WARNING MsgUncertain ;; ret false)).

Definition go_to_payment (self : Self) : M bool :=
  log INFO MsgPayTry ;;
  let payment_selectors := ["text=" +:+ quoted "去支付"] in
  clicked <- wait_and_click self payment_selectors 5000 ;;
  if clicked then log INFO MsgPayClicked ;; ret true
  else log WARNING MsgPayMissing ;; ret false.

(** *** [_execute_booking] *)

(** [x[i], x[j] = x[j], x[i]]. *)
Definition swap {A} (x : list A) (i j : nat) : list A :=
  match x !! i, x !! j with
  | Some xi, Some xj => <[j:=xi]> (<[i:=xj]> x)
  | _, _ => x
  end.

(** [random.shuffle]: for [i] from [len(x) - 1] down to 1, swap
    [x[i]] with [x[randbelow(i + 1)]]. *)
Fixpoint shuffle_from {A} (i : nat) (x : list A) : M (list A) :=
  match i with
  | O => ret x
  | S i' => j <- randbelow (S i) ;; shuffle_from i' (swap x i j)
  end.

Definition shuffle {A} (x : list A) : M (list A) :=
  shuffle_from (length x - 1) x.

(** [[(court, slot) for court in courts for slot in time_slots]]. *)
Definition combinations (self : Self) : list (string * string) :=
  court ← courts self; slot ← time_slots self; [(court, slot)].

(** The selectors of the date step, from the clock reading [d]. *)
Definition date_selectors (d : datetime) : list string :=
  let tomorrow := day (add_days d 1) in
  ["text=明天";
   "text=/-" +:+ fmt_02d tomorrow +:+ "/";
   "text=/" +:+ fmt_02d tomorrow +:+ "/"].

Definition confirm_button : string :=
  "uni-button:has-text(" +:+ quoted "确定" +:+ ")".
Definition submit_button : string :=
  "uni-button:has-text(" +:+ quoted "提交订单" +:+ ")".

Definition newline : ascii := Ascii.ascii_of_nat 10.

(** Steps a to d of the loop body: select the court, select the time
    slot, confirm, submit.  [true] when the order was submitted;
    [false] where the source says [continue]. *)
Definition select_and_submit (self : Self) (court time_slot : string)
  : M bool :=
  log INFO (MsgTrying court time_slot) ;;
  let court_selectors :=
    ["uni-text:has-text(" +:+ quoted court +:+ ")"; "text=" +:+ court] in
  clicked <- wait_and_click self court_selectors 1500 ;;
  if negb clicked then log WARNING (MsgNoCourtTab court) ;; ret false
  else
    random_delay self Fast ;;
    end_time <- lift (index (split "-" time_slot) 1) ;;
    start <- lift (index (split "-" time_slot) 0) ;;
    start_hour_text <- lift (index (split ":" start) 0) ;;
    time_regex <- lift (re_compile (start_hour_text +:+ ":00 - "
                                      +:+ end_time +:+ ".*￥")) ;;
    page (ClickText time_regex 1000) ;;
    random_delay self Fast ;;
    page (Click confirm_button (Some 1000)) ;;
    page (WaitFor submit_button 2000) ;;
    log INFO (MsgLocked court time_slot) ;;
    clicked <- wait_and_click self [submit_button] 5000 ;;
    if negb clicked then log WARNING MsgSubmitFailed ;; ret false
    else ret true.

(** Step e: check the result, go to the payment on success, and
    [return success]. *)
Definition check_and_pay (self : Self) : M bool :=
  success <- check_result ;;
  (if success then go_to_payment self ;; ret tt else ret tt) ;;
  ret success.

(** The body of the [for] loop, with its [try] and [except]. *)
Definition attempt (self : Self) (court time_slot : string)
  : M (flow bool) :=
  try_except
    (submitted <- select_and_submit self court time_slot ;;
     if submitted then
       success <- check_and_pay self ;;
       ret (Return success)
     else ret Continue)
    (fun e =>
       let error_summary := default "" (head (split newline (exn_str e))) in
       log WARNING (MsgComboFailed court time_slot error_summary) ;;
       ret Continue).

Definition exhausted : exn :=
  Exception "已尝试所有场地和时间组合，未能成功预订。".

(** The [for] loop and the [raise] after it. *)
Fixpoint search (self : Self) (all_combinations : list (string * string))
  : M bool :=
  match all_combinations with
  | [] => raise exhausted
  | (court, time_slot) :: rest =>
      f <- attempt self court time_slot ;;
      match f with
      | Return success => ret success
      | Continue => search self rest
      end
  end.

Definition _execute_booking (self : Self) : M bool :=
  log INFO MsgPhase2 ;;
  log INFO MsgSelectDate ;;
  d <- now ;;
  clicked <- wait_and_click self (date_selectors d) 5000 ;;
  if negb clicked then raise (Exception "选择明天日期失败")
  else
    random_delay self Fast ;;
    all_combinations <- shuffle (combinations self) ;;
    log INFO (MsgOrder (length all_combinations) all_combinations) ;;
    search self all_combinations.

(** *** [run] *)

Definition keep_open_hint : string :=
  "浏览器将保持打开状态，您可以手动查看预约详情".

(** The body of the [try]: prepare, wait, search. *)
Definition booking_sequence (self : Self) (fuel : nat) : M bool :=
  _login_and_prepare self ;;
  wait_until_target_time self fuel ;;
  booking_start_time <- time ;;
  success <- _execute_booking self ;;
  t <- time ;;
  log INFO (MsgElapsed (t - booking_start_time)) ;;
  ret success.

(** The [except Exception as e] clause. *)
Definition on_error (e : exn) : M bool :=
  log ERROR (MsgUnexpected (exn_str e)) ;;
  t <- time ;;
  let timestamp := Z.quot t 1000000 in
  let screenshot_path := "error_" +:+ str_of_Z timestamp +:+ ".png" in
  try_except
    (page (Screenshot screenshot_path) ;;
     log INFO (MsgShotSaved screenshot_path))
    (fun ex => log ERROR (MsgShotFailed (exn_str ex))) ;;
  ret false.

(** The [try] with its [except] clause. *)
Definition booking_flow (self : Self) (fuel : nat) : M bool :=
  try_except (booking_sequence self fuel) on_error.

(** The [finally] clause. *)
Definition cleanup (self : Self) : M unit :=
  (if negb (is_ci self) then
     session (Print keep_open_hint) ;;
     session (Input "按 Enter 键关闭浏览器...")
   else ret tt) ;;
  session BrowserClose.

Definition run (self : Self) (fuel : nat) : M bool :=
  session PlaywrightStart ;;
  try_finally
    (session (Launch (is_ci self)) ;;
     session NewContext ;;
     session NewPage ;;
     try_finally (booking_flow self fuel) (cleanup self))
    (session PlaywrightStop).

End Program.

(** ** Reading a history

    Each observation is a partial function on events; the history is
    read by keeping, in order, the events it is defined on. *)

(** The selector of a [wait_for] call.  Every candidate of
    [wait_and_click] starts with that call. *)
Definition wait_of (e : event) : option string :=
  match e with
  | EvPage (WaitFor s _) _ => Some s
  | _ => None
  end.

(** The combination the search announces: the first statement of the
    loop body logs the pair it is about to try. *)
Definition trying_of (e : event) : option (string * string) :=
  match e with
  | EvLog _ (MsgTrying c s) => Some (c, s)
  | _ => None
  end.

(** A call of [go_to_payment]: its first statement logs one record. *)
Definition payment_of (e : event) : option unit :=
  match e with
  | EvLog _ MsgPayTry => Some tt
  | _ => None
  end.

(** A screenshot request, with its answer. *)
Definition screenshot_of (e : event) : option (string * option exn) :=
  match e with
  | EvPage (Screenshot p) r => Some (p, r)
  | _ => None
  end.

(** The outcome [check_result] writes to the log. *)
Inductive verdict :=
  | Success (text : string)
  | Failure (text : string)
  | Unknown.

Definition verdict_of (e : event) : option verdict :=
  match e with
  | EvLog _ (MsgSuccess t) => Some (Success t)
  | EvLog _ (MsgFailure t) => Some (Failure t)
  | EvLog _ MsgUncertain => Some Unknown
  | _ => None
  end.

Definition sleep_of (e : event) : option Z :=
  match e with EvSleep us => Some us | _ => None end.

Definition waited (h : history) : list string := omap wait_of h.
Definition tried (h : history) : list (string * string) := omap trying_of h.
Definition payments (h : history) : list unit := omap payment_of h.
Definition screenshots (h : history) := omap screenshot_of h.
Definition verdicts (h : history) : list verdict := omap verdict_of h.
Definition sleeps (h : history) : list Z := omap sleep_of h.

(** [mute f e]: the observation [f] does not see the event [e]. *)
Definition mute {X} (f : event -> option X) (e : event) : bool :=
  match f e with
  | Some _ => false
  | None => true
  end.

Lemma omap_mute {X} (f : event -> option X) (d : list event) :
  Forall (fun e => mute f e = true) d -> omap f d = [].
Proof.
  induction 1 as [|e d He _ IH]; [done|].
  simpl. unfold mute in He. destruct (f e); [done|]. exact IH.
Qed.

(** ** Footprints

    [emits p m]: whatever the history, [m] only appends to it, and
    every event it appends satisfies [p]. *)
Definition emits {A} (p : event -> bool) (m : M A) : Prop :=
  forall h, exists d, snd (m h) = h ++ d /\ Forall (fun e => p e = true) d.

Lemma emits_weaken {A} (p q : event -> bool) (m : M A) :
  (forall e, p e = true -> q e = true) -> emits p m -> emits q m.
Proof.
  intros Hpq Hm h. destruct (Hm h) as (d & -> & Hd).
  exists d. split; [done|]. eapply Forall_impl; eauto.
Qed.

Lemma emits_ret {A} p (a : A) : emits p (ret a).
Proof. intros h. exists []. by rewrite app_nil_r. Qed.

Lemma emits_raise {A} p e : emits p (@raise A e).
Proof. intros h. exists []. by rewrite app_nil_r. Qed.

Lemma emits_diverge {A} p : emits p (@diverge A).
Proof. intros h. exists []. by rewrite app_nil_r. Qed.

Lemma emits_lift {A} p (r : result A) : emits p (lift r).
Proof. intros h. exists []. by rewrite app_nil_r. Qed.

Lemma emits_bind {A B} p (m : M A) (k : A -> M B) :
  emits p m -> (forall a, emits p (k a)) -> emits p (bind m k).
Proof.
  intros Hm Hk h. unfold bind.
  destruct (Hm h) as (d & Hd & Hp).
  destruct (m h) as [[a|e|] h1]; simpl in Hd; subst h1.
  - destruct (Hk a (h ++ d)) as (d' & Hd' & Hp').
    exists (d ++ d'). rewrite Hd', app_assoc. split; [done|].
    by apply Forall_app.
  - by exists d.
  - by exists d.
Qed.

Lemma emits_try_except {A} p (body : M A) (handler : exn -> M A) :
  emits p body -> (forall e, emits p (handler e)) ->
  emits p (try_except body handler).
Proof.
  intros Hm Hk h. unfold try_except.
  destruct (Hm h) as (d & Hd & Hp).
  destruct (body h) as [[a|e|] h1]; simpl in Hd; subst h1.
  - by exists d.
  - destruct (Hk e (h ++ d)) as (d' & Hd' & Hp').
    exists (d ++ d'). rewrite Hd', app_assoc. split; [done|].
    by apply Forall_app.
  - by exists d.
Qed.

Lemma emits_try_finally {A} p (body : M A) (cleanup : M unit) :
  emits p body -> emits p cleanup -> emits p (try_finally body cleanup).
Proof.
  intros Hm Hk h. unfold try_finally.
  destruct (Hm h) as (d & Hd & Hp).
  destruct (Hk (h ++ d)) as (d' & Hd' & Hp').
  assert (Forall (fun e => p e = true) (d ++ d')) by by apply Forall_app.
  destruct (body h) as [[a|e|] h1]; simpl in Hd; subst h1.
  - destruct (cleanup (h ++ d)) as [[[]|e'|] h2]; simpl in Hd'; subst h2;
      exists (d ++ d'); by rewrite app_assoc.
  - destruct (cleanup (h ++ d)) as [[[]|e'|] h2]; simpl in Hd'; subst h2;
      exists (d ++ d'); by rewrite app_assoc.
  - by exists d.
Qed.

(** The first step of a [try] body, once its outcome is known. *)
Lemma try_except_bind_ok {A B} (m : M A) (k : A -> M B) handler h a h1 :
  m h = (Ok a, h1) ->
  try_except (bind m k) handler h = try_except (k a) handler h1.
Proof. intros Hm. unfold try_except, bind. by rewrite Hm. Qed.

Lemma try_except_bind_raise {A B} (m : M A) (k : A -> M B) handler h e h1 :
  m h = (Raise e, h1) ->
  try_except (bind m k) handler h = handler e h1.
Proof. intros Hm. unfold try_except, bind. by rewrite Hm. Qed.

Section Footprints.

Variable world : World.

Lemma emits_page p o :
  (forall r, p (EvPage o r) = true) -> emits p (page world o).
Proof. intros Hp h. eexists [_]. split; [done|]. by repeat constructor. Qed.

Lemma emits_session p o :
  (forall r, p (EvSession o r) = true) -> emits p (session world o).
Proof. intros Hp h. eexists [_]. split; [done|]. by repeat constructor. Qed.

Lemma emits_page_url p :
  (forall u, p (EvUrl u) = true) -> emits p (page_url world).
Proof. intros Hp h. eexists [_]. split; [done|]. by repeat constructor. Qed.

Lemma emits_text_content p s t :
  (forall r, p (EvText s t r) = true) -> emits p (text_content world s t).
Proof. intros Hp h. eexists [_]. split; [done|]. by repeat constructor. Qed.

Lemma emits_now p : (forall d, p (EvNow d) = true) -> emits p (now world).
Proof. intros Hp h. eexists [_]. split; [done|]. by repeat constructor. Qed.

Lemma emits_time p : (forall t, p (EvTime t) = true) -> emits p (time world).
Proof. intros Hp h. eexists [_]. split; [done|]. by repeat constructor. Qed.

Lemma emits_sleep p us : p (EvSleep us) = true -> emits p (sleep us).
Proof. intros Hp h. eexists [_]. split; [done|]. by repeat constructor. Qed.

Lemma emits_uniform p lo hi :
  (forall v, p (EvUniform lo hi v) = true) -> emits p (uniform world lo hi).
Proof. intros Hp h. eexists [_]. split; [done|]. by repeat constructor. Qed.

Lemma emits_randbelow p n :
  (forall k, p (EvRandbelow n k) = true) -> emits p (randbelow world n).
Proof. intros Hp h. eexists [_]. split; [done|]. by repeat constructor. Qed.

Lemma emits_log p l m : p (EvLog l m) = true -> emits p (log l m).
Proof. intros Hp h. eexists [_]. split; [done|]. by repeat constructor. Qed.

End Footprints.

(** Decomposes a footprint goal along the structure of the code. *)
Create HintDb emits.

(** Settles an inclusion between two footprints by cases on the
    event. *)
Ltac event_cases :=
  let e := fresh "e" in
  intros e; destruct e as [[]| | | | | | | |[]|? []];
  simpl; try done; repeat case_match; done.

(** Decomposes a footprint goal along the structure of the code. *)
Ltac footprint :=
  repeat first
    [ match goal with |- forall _, _ => intro end
    | solve [auto with emits nocore]
    | solve [eapply emits_weaken;
             [ | solve [auto with emits nocore] ]; event_cases]
    | apply emits_ret | apply emits_raise | apply emits_diverge
    | apply emits_lift
    | apply emits_bind | apply emits_try_except | apply emits_try_finally
    | apply emits_page; intros; reflexivity
    | apply emits_session; intros; reflexivity
    | apply emits_page_url; intros; reflexivity
    | apply emits_text_content; intros; reflexivity
    | apply emits_now; intros; reflexivity
    | apply emits_time; intros; reflexivity
    | apply emits_sleep; reflexivity
    | apply emits_uniform; intros; reflexivity
    | apply emits_randbelow; intros; reflexivity
    | apply emits_log; reflexivity
    | match goal with
      | |- emits _ (if ?b then _ else _) => destruct b
      | |- emits _ (match ?x with _ => _ end) => destruct x
      | |- emits _ (let '(_, _) := ?x in _) => destruct x
      end ].

(** What a footprint leaves unseen stays as it was. *)
Lemma emits_mute {A X} (f : event -> option X) (m : M A) h :
  emits (mute f) m -> omap f (snd (m h)) = omap f h.
Proof.
  intros Hm. destruct (Hm h) as (d & -> & Hd).
  by rewrite omap_app, (omap_mute f d Hd), app_nil_r.
Qed.

(** The events of a delay. *)
Definition delay_event (e : event) : bool :=
  match e with
  | EvSleep _ | EvUniform _ _ _ => true
  | _ => false
  end.

(** The events of the click primitive. *)
Definition click_event (e : event) : bool :=
  match e with
  | EvPage (WaitFor _ _) _ | EvPage (ScrollIntoView _) _
  | EvPage (Click _ None) _ => true
  | EvUrl _ | EvSleep _ | EvUniform _ _ _ => true
  | EvLog _ (MsgClicked _) | EvLog _ (MsgClickFailed _)
  | EvLog _ (MsgNoneClickable _) => true
  | _ => false
  end.

Section ClickFootprint.

Variable world : World.

Lemma random_delay_emits self p :
  emits delay_event (random_delay world self p).
Proof. unfold random_delay. footprint. Qed.

Hint Resolve random_delay_emits : emits.

Lemma click_candidate_emits self s t :
  emits click_event (click_candidate world self s t).
Proof. unfold click_candidate. footprint. Qed.
Hint Resolve click_candidate_emits : emits.

Lemma click_first_emits self sels rest t :
  emits click_event (click_first world self sels rest t).
Proof. induction rest as [|s rest IH]; simpl; footprint. Qed.

Lemma wait_and_click_emits self sels t :
  emits click_event (wait_and_click world self sels t).
Proof. apply click_first_emits. Qed.

End ClickFootprint.

#[global] Hint Resolve random_delay_emits click_candidate_emits
  wait_and_click_emits : emits.

(** ** Concrete worlds, for examples *)

Definition timeout_error : exn := DriverError "Timeout exceeded".

Definition morning : datetime :=
  {| date_ord := 739463; hour := 8; minute := 29; second := 59;
     microsecond := 999000 |}.

(** The patterns of the examples are made of literal characters and
    of [.*].  [literal_pattern atom p]: every character of [p] is a
    literal or a dot, or a star that follows one of them; [atom] tells
    whether a star may come next.  Such a pattern compiles. *)
Definition regex_special (c : ascii) : bool :=
  existsb (Ascii.eqb c) (list_ascii_of_string "\^$.|?*+()[]{}").

Fixpoint literal_pattern (atom : bool) (p : string) : bool :=
  match p with
  | EmptyString => true
  | String c p' =>
      if Ascii.eqb c "." then literal_pattern true p'
      else if Ascii.eqb c "*" then atom && literal_pattern false p'
      else if regex_special c then false
      else literal_pattern true p'
  end.

Definition pattern_error : exn := Exception "re.error".

(** The regex library of the examples: it is asked about patterns of
    the class above only, and compiles them. *)
Definition literal_patterns (p : string) : option exn :=
  if literal_pattern false p then None else Some pattern_error.

(** A page on which exactly the calls selected by [fails] raise.  The
    clock stands still at [clock], the page is the booking page, every
    text reads [text]. *)
Definition page_world (fails : history -> page_op -> bool) (text : string)
    (clock : history -> datetime) : World :=
  {| page_answer := fun h o => if fails h o then Some timeout_error else None;
     url_answer := fun _ => "http://cgzx.scu.edu.cn/venue/booking";
     text_answer := fun _ _ _ => inr (Some text);
     wall := clock;
     timer := fun h => Z.of_nat (length h) * 1000;
     entropy := fun h => length h;
     session_answer := fun _ _ => None;
     re_answer := literal_patterns |}.

Definition ci_env (name : string) : option string :=
  if String.eqb name "BOOKING_USERNAME" then Some "player"
  else if String.eqb name "BOOKING_PASSWORD" then Some "secret"
  else if String.eqb name "GITHUB_ACTIONS" then Some "true"
  else None.

Definition local_env (name : string) : option string :=
  if String.eqb name "BOOKING_USERNAME" then Some "player"
  else if String.eqb name "BOOKING_PASSWORD" then Some "secret"
  else None.

(** The instance [__init__] builds in the environment [ci_env]. *)
Definition ci_self : Self :=
  {| username := Some "player"; password := Some "secret";
     venue_name := "望江西区网球场";
     courts := ["1号场"; "2号场"; "3号场"];
     time_slots := ["18:00-19:00"; "19:00-20:00"; "20:00-21:00"];
     target_time := "08:30:00:000";
     is_ci := true |}.

Definition local_self : Self :=
  {| username := Some "player"; password := Some "secret";
     venue_name := "望江西区网球场";
     courts := ["1号场"; "2号场"; "3号场"];
     time_slots := ["18:00-19:00"; "19:00-20:00"; "20:00-21:00"];
     target_time := "08:30:00:000";
     is_ci := false |}.

Lemma ci_self_constructed : __init__ ci_env = Ok ci_self.
Proof. reflexivity. Qed.

Lemma local_self_constructed : __init__ local_env = Ok local_self.
Proof. reflexivity. Qed.

(** ** [wait_and_click] *)

Section WaitAndClick.

Variable world : World.
Variable self : Self.
Variable timeout : Z.

(** [all_fail sels h h']: started in the history [h], the candidates
    [sels], tried one after the other, each raise; [h'] is the history
    after the last of them, each failure followed by its warning. *)
Inductive all_fail : list string -> history -> history -> Prop :=
  | all_fail_nil h : all_fail [] h h
  | all_fail_cons s rest h e h1 h2 :
      click_candidate world self s timeout h = (Raise e, h1) ->
      all_fail rest (h1 ++ [EvLog WARNING (MsgClickFailed s)]) h2 ->
      all_fail (s :: rest) h h2.

Lemma click_candidate_total s h :
  fst (click_candidate world self s timeout h) <> Diverge.
Proof.
  unfold click_candidate, random_delay, bind, page, page_url, uniform,
    sleep, log.
  repeat (case_match; simplify_eq/=; try done).
Qed.

Lemma click_candidate_waited s h :
  waited (snd (click_candidate world self s timeout h)) = waited h ++ [s].
Proof.
  unfold click_candidate, bind at 1.
  destruct (page world (WaitFor s timeout) h) as [r h1] eqn:Hp.
  assert (h1 = h ++ [EvPage (WaitFor s timeout)
                       (page_answer world h (WaitFor s timeout))]) as ->
    by (unfold page in Hp; by simplify_eq).
  assert (waited (h ++ [EvPage (WaitFor s timeout)
                          (page_answer world h (WaitFor s timeout))])
          = waited h ++ [s]) as Hw by (unfold waited; by rewrite omap_app).
  destruct r as [[]|e|]; [|done..].
  rewrite <- Hw. apply (emits_mute wait_of). footprint.
Qed.

Lemma click_first_miss sels s rest h e h1 :
  click_candidate world self s timeout h = (Raise e, h1) ->
  click_first world self sels (s :: rest) timeout h
  = click_first world self sels rest timeout
      (h1 ++ [EvLog WARNING (MsgClickFailed s)]).
Proof.
  intros Hc. cbn [click_first]. unfold bind at 1, try_except, bind at 1.
  by rewrite Hc.
Qed.

Lemma click_first_hit sels s rest h h1 :
  click_candidate world self s timeout h = (Ok tt, h1) ->
  click_first world self sels (s :: rest) timeout h = (Ok true, h1).
Proof.
  intros Hc. cbn [click_first]. unfold bind at 1, try_except, bind at 1.
  by rewrite Hc.
Qed.

Lemma click_first_skip (sels pre rest : list string) h h1 :
  all_fail pre h h1 ->
  click_first world self sels (pre ++ rest) timeout h
  = click_first world self sels rest timeout h1.
Proof.
  induction 1 as [|s pre h e h1 h2 Hc _ IH]; [done|].
  rewrite <- IH. simpl app. by eapply click_first_miss.
Qed.

Lemma all_fail_waited (sels : list string) h h1 :
  all_fail sels h h1 -> waited h1 = waited h ++ sels.
Proof.
  induction 1 as [|s rest h e h1 h2 Hc _ IH]; [by rewrite app_nil_r|].
  rewrite IH. unfold waited at 1. rewrite omap_app. simpl.
  rewrite app_nil_r. fold (waited h1).
  pose proof (click_candidate_waited s h) as Hw. rewrite Hc in Hw.
  simpl in Hw. rewrite Hw. by rewrite <- app_assoc.
Qed.

(** Every run of the loop is of one of the two kinds: a first
    candidate that completes, after candidates that all raised, or
    candidates that all raise. *)
Lemma click_first_cases (rest : list string) h :
  (exists pre s post h1,
      rest = pre ++ s :: post /\ all_fail pre h h1
      /\ fst (click_candidate world self s timeout h1) = Ok tt)
  \/ (exists h1, all_fail rest h h1).
Proof.
  revert h. induction rest as [|s rest IH]; intros h.
  - right. exists h. constructor.
  - destruct (click_candidate world self s timeout h) as [[[]|e|] h1] eqn:Hc.
    + left. exists [], s, rest, h. split_and!; [done|constructor|by rewrite Hc].
    + destruct (IH (h1 ++ [EvLog WARNING (MsgClickFailed s)]))
        as [(pre & s' & post & h2 & -> & Hf & Hs)|(h2 & Hf)].
      * left. exists (s :: pre), s', post, h2.
        split_and!; [done|by econstructor|done].
      * right. exists h2. by econstructor.
    + pose proof (click_candidate_total s h) as Hd. by rewrite Hc in Hd.
Qed.

End WaitAndClick.

Arguments all_fail_nil {world self timeout}.

(** C2, [wait_and_click]: when the candidates before [s] all raise and
    [s] completes, the call returns [True] with the history the click
    on [s] left, and the candidates waited for are those up to [s]: none
    after it is invoked.  When every candidate raises, the call returns
    [False], no exception leaves it, and each candidate was waited for
    exactly once, in order. *)
Theorem wait_and_click_first_success world self timeout :
  (forall pre s post h h1,
      all_fail world self timeout pre h h1 ->
      fst (click_candidate world self s timeout h1) = Ok tt ->
      let out := wait_and_click world self (pre ++ s :: post) timeout h in
      fst out = Ok true
      /\ snd out = snd (click_candidate world self s timeout h1)
      /\ waited (snd out) = waited h ++ pre ++ [s])
  /\ (forall sels h h1,
         all_fail world self timeout sels h h1 ->
         let out := wait_and_click world self sels timeout h in
         fst out = Ok false
         /\ snd out = h1 ++ [EvLog ERROR (MsgNoneClickable sels)]
         /\ waited (snd out) = waited h ++ sels).
Proof.
  split.
  - intros pre s post h h1 Hf Hs. unfold wait_and_click. simpl.
    erewrite click_first_skip by exact Hf.
    destruct (click_candidate world self s timeout h1) as [r h2] eqn:Hc.
    simpl in Hs. subst r.
    erewrite click_first_hit by exact Hc. simpl.
    split_and!; [done..|].
    pose proof (click_candidate_waited world self timeout s h1) as Hw.
    rewrite Hc in Hw. simpl in Hw.
    apply all_fail_waited in Hf. by rewrite Hw, Hf, <- app_assoc.
  - intros sels h h1 Hf. unfold wait_and_click. simpl.
    pose proof (click_first_skip world self timeout sels sels [] h h1 Hf)
      as Hk.
    rewrite app_nil_r in Hk. rewrite Hk. simpl. unfold bind, log, ret. simpl.
    split_and!; [done..|].
    unfold waited at 1. rewrite omap_app. simpl. rewrite app_nil_r.
    by apply all_fail_waited in Hf.
Qed.

(** A page on which the selector [first] never becomes visible. *)
Definition hidden (s : string) (h : history) (o : page_op) : bool :=
  match o with
  | WaitFor s' _ => String.eqb s' s
  | _ => false
  end.

Definition first_hidden : World :=
  page_world (hidden "text=one") "" (fun _ => morning).

Definition after_first : history :=
  [EvPage (WaitFor "text=one" 5000) (Some timeout_error);
   EvLog WARNING (MsgClickFailed "text=one")].

Lemma wait_and_click_first_success_witness :
  all_fail first_hidden ci_self 5000 ["text=one"] [] after_first
  /\ fst (click_candidate first_hidden ci_self "text=two" 5000 after_first)
     = Ok tt
  /\ fst (wait_and_click first_hidden ci_self
            ["text=one"; "text=two"; "text=three"] 5000 []) = Ok true
  /\ waited (snd (wait_and_click first_hidden ci_self
                    ["text=one"; "text=two"; "text=three"] 5000 []))
     = ["text=one"; "text=two"]
  /\ fst (wait_and_click first_hidden ci_self ["text=one"] 5000 [])
     = Ok false
  /\ waited (snd (wait_and_click first_hidden ci_self ["text=one"] 5000 []))
     = ["text=one"].
Proof.
  assert (all_fail first_hidden ci_self 5000 ["text=one"] [] after_first)
    as Hf by (econstructor; [reflexivity|constructor]).
  assert (fst (click_candidate first_hidden ci_self "text=two" 5000
                 after_first) = Ok tt) as Hs by reflexivity.
  destruct (wait_and_click_first_success first_hidden ci_self 5000)
    as [Hhit Hmiss].
  destruct (Hhit ["text=one"] "text=two" ["text=three"] [] after_first Hf Hs)
    as (H1 & _ & H2).
  destruct (Hmiss ["text=one"] [] after_first Hf) as (H3 & _ & H4).
  repeat split; assumption.
Defined.

(** ** Calls that end

    [halts m]: the call [m] ends, with a value or an exception.
    [safe m]: it ends with a value. *)
Definition halts {A} (m : M A) : Prop := forall h, fst (m h) <> Diverge.

Definition safe {A} (m : M A) : Prop := forall h, exists a, fst (m h) = Ok a.

Lemma safe_halts {A} (m : M A) : safe m -> halts m.
Proof. intros Hm h. destruct (Hm h) as [a ->]. done. Qed.

Lemma halts_ret {A} (a : A) : halts (ret a).
Proof. by intros h. Qed.

Lemma halts_raise {A} e : halts (@raise A e).
Proof. by intros h. Qed.

Lemma halts_lift {A} (r : result A) : r <> Diverge -> halts (lift r).
Proof. by intros Hr h. Qed.

Lemma halts_bind {A B} (m : M A) (k : A -> M B) :
  halts m -> (forall a, halts (k a)) -> halts (bind m k).
Proof.
  intros Hm Hk h. unfold bind. specialize (Hm h).
  destruct (m h) as [[a|e|] h1]; [apply Hk|done..].
Qed.

Lemma halts_try_except {A} (body : M A) (handler : exn -> M A) :
  halts body -> (forall e, halts (handler e)) -> halts (try_except body handler).
Proof.
  intros Hm Hk h. unfold try_except. specialize (Hm h).
  destruct (body h) as [[a|e|] h1]; [done|apply Hk|done].
Qed.

Lemma halts_try_finally {A} (body : M A) (cleanup : M unit) :
  halts body -> halts cleanup -> halts (try_finally body cleanup).
Proof.
  intros Hm Hk h. unfold try_finally. specialize (Hm h).
  destruct (body h) as [[a|e|] h1]; [| |done];
    specialize (Hk h1); by destruct (cleanup h1) as [[[]|e'|] h2].
Qed.

Lemma safe_ret {A} (a : A) : safe (ret a).
Proof. intros h. by exists a. Qed.

Lemma safe_bind {A B} (m : M A) (k : A -> M B) :
  safe m -> (forall a, safe (k a)) -> safe (bind m k).
Proof.
  intros Hm Hk h. unfold bind. destruct (Hm h) as [a Ha].
  destruct (m h) as [r h1]. simpl in Ha. subst r. apply Hk.
Qed.

(** An [except Exception] clause whose handler returns makes the whole
    statement return, provided the body ends. *)
Lemma safe_try_except {A} (body : M A) (handler : exn -> M A) :
  halts body -> (forall e, safe (handler e)) -> safe (try_except body handler).
Proof.
  intros Hm Hk h. unfold try_except. specialize (Hm h).
  destruct (body h) as [[a|e|] h1]; [by exists a|apply Hk|done].
Qed.

Lemma index_halts {A} (l : list A) i : index l i <> Diverge.
Proof. unfold index. by destruct (l !! i). Qed.

Lemma re_compile_halts world p : re_compile world p <> Diverge.
Proof. unfold re_compile. by destruct (re_answer world p). Qed.

Lemma int_halts s : int s <> Diverge.
Proof. unfold int. destruct s; [done|]. by destruct (int_digits _ _). Qed.

Section Ends.

Variable world : World.

Lemma halts_page o : halts (page world o).
Proof. intros h. unfold page. simpl. by destruct (page_answer _ _ _). Qed.

Lemma halts_session o : halts (session world o).
Proof. intros h. unfold session. simpl. by destruct (session_answer _ _ _). Qed.

Lemma halts_text_content s t : halts (text_content world s t).
Proof. intros h. unfold text_content. simpl. by destruct (text_answer _ _ _ _). Qed.

Lemma safe_page_url : safe (page_url world).
Proof. intros h. by eexists. Qed.

Lemma safe_now : safe (now world).
Proof. intros h. by eexists. Qed.

Lemma safe_time : safe (time world).
Proof. intros h. by eexists. Qed.

Lemma safe_sleep us : safe (sleep us).
Proof. intros h. by eexists. Qed.

Lemma safe_uniform lo hi : safe (uniform world lo hi).
Proof. intros h. by eexists. Qed.

Lemma safe_randbelow n : safe (randbelow world n).
Proof. intros h. by eexists. Qed.

Lemma safe_log l m : safe (log l m).
Proof. intros h. by eexists. Qed.

End Ends.

Create HintDb ends.

#[global] Hint Resolve index_halts int_halts re_compile_halts : ends.
#[global] Hint Resolve halts_page halts_session halts_text_content
  safe_page_url safe_now safe_time safe_sleep safe_uniform safe_randbelow
  safe_log : ends.

(** Decomposes a goal [halts m] or [safe m] along the code. *)
Ltac ends :=
  repeat first
    [ match goal with |- forall _, _ => intro end
    | solve [auto with ends nocore]
    | solve [apply safe_halts; auto with ends nocore]
    | apply safe_ret | apply halts_ret | apply halts_raise
    | apply halts_lift; solve [auto with ends nocore]
    | apply safe_bind | apply halts_bind
    | apply safe_try_except | apply halts_try_except
    | apply halts_try_finally
    | match goal with
      | |- halts (if ?b then _ else _) => destruct b
      | |- safe (if ?b then _ else _) => destruct b
      | |- halts (match ?x with _ => _ end) => destruct x
      | |- safe (match ?x with _ => _ end) => destruct x
      | |- halts (let '(_, _) := ?x in _) => destruct x
      | |- safe (let '(_, _) := ?x in _) => destruct x
      end ].

Section ClickEnds.

Variable world : World.

Lemma random_delay_safe self p : safe (random_delay world self p).
Proof. unfold random_delay. ends. Qed.
Hint Resolve random_delay_safe : ends.

Lemma click_candidate_halts self s t : halts (click_candidate world self s t).
Proof. unfold click_candidate. ends. Qed.
Hint Resolve click_candidate_halts : ends.

Lemma click_first_safe self sels rest t :
  safe (click_first world self sels rest t).
Proof. induction rest as [|s rest IH]; simpl; ends. Qed.

Lemma wait_and_click_safe self sels t :
  safe (wait_and_click world self sels t).
Proof. apply click_first_safe. Qed.

End ClickEnds.

#[global] Hint Resolve random_delay_safe click_candidate_halts
  wait_and_click_safe : ends.

(** ** [check_result] *)

(** The events of [check_result]. *)
Definition check_event (e : event) : bool :=
  match e with
  | EvPage (WaitFor _ _) _ | EvText _ _ _ => true
  | EvLog _ MsgChecking | EvLog _ (MsgSuccess _) | EvLog _ MsgNoSuccess
  | EvLog _ (MsgFailure _) | EvLog _ MsgUncertain => true
  | _ => false
  end.

(** The value [check_result] returns for a verdict. *)
Definition returned (v : verdict) : bool :=
  match v with
  | Success _ => true
  | Failure _ | Unknown => false
  end.

Section CheckResult.

Variable world : World.

Lemma strip_text_halts t : halts (strip_text t).
Proof. intros h. by destruct t. Qed.
Hint Resolve strip_text_halts : ends.

Lemma check_result_safe : safe (check_result world).
Proof. unfold check_result. ends. Qed.

Lemma check_result_emits : emits check_event (check_result world).
Proof. unfold check_result, strip_text. footprint. Qed.

(** One verdict is logged by each call, and the value returned is
    [True] for [Success] and [False] for the two others. *)
Lemma check_result_verdict h :
  exists v,
    verdicts (snd (check_result world h)) = verdicts h ++ [v]
    /\ fst (check_result world h) = Ok (returned v).
Proof.
  unfold check_result, try_except, bind, page, text_content, strip_text,
    log, ret, raise, verdicts.
  repeat (case_match; simplify_eq/=);
    repeat (rewrite omap_app; simpl); rewrite ?app_nil_r;
    first [ by eexists (Success _) | by eexists (Failure _) | by exists Unknown ].
Qed.

End CheckResult.

#[global] Hint Resolve check_result_safe strip_text_halts : ends.
#[global] Hint Resolve check_result_emits : emits.

(** A page that shows a failure message and no success message. *)
Definition refusing : World :=
  page_world (hidden success_pattern) " 预约失败，已达上限 "
    (fun _ => morning).

(** A page that shows neither. *)
Definition silent : World :=
  page_world (fun h o => hidden success_pattern h o || hidden error_pattern h o)
    "" (fun _ => morning).

(** A page that shows the success message. *)
Definition granting : World :=
  page_world (fun _ _ => false) "预约成功" (fun _ => morning).




(** ** The loop body of [_execute_booking] *)

Section Attempt.

Variable world : World.
Variable self : Self.

Lemma go_to_payment_safe : safe (go_to_payment world self).
Proof. unfold go_to_payment. ends. Qed.

Lemma go_to_payment_tried h :
  tried (snd (go_to_payment world self h)) = tried h.
Proof. apply (emits_mute trying_of). unfold go_to_payment. footprint. Qed.

(** Each call of [go_to_payment] leaves one payment record. *)
Lemma go_to_payment_payments h :
  payments (snd (go_to_payment world self h)) = payments h ++ [tt].
Proof.
  unfold go_to_payment, bind at 1, log at 1.
  assert (payments (h ++ [EvLog INFO MsgPayTry]) = payments h ++ [tt]) as <-
    by (unfold payments; by rewrite omap_app).
  apply (emits_mute payment_of). footprint.
Qed.

Lemma select_and_submit_halts c s : halts (select_and_submit world self c s).
Proof. unfold select_and_submit. ends. Qed.

Lemma select_and_submit_tried c s h :
  tried (snd (select_and_submit world self c s h)) = tried h ++ [(c, s)].
Proof.
  unfold select_and_submit, bind at 1, log at 1.
  assert (tried (h ++ [EvLog INFO (MsgTrying c s)]) = tried h ++ [(c, s)])
    as <- by (unfold tried; by rewrite omap_app).
  apply (emits_mute trying_of). footprint.
Qed.

Lemma select_and_submit_payments c s h :
  payments (snd (select_and_submit world self c s h)) = payments h.
Proof. apply (emits_mute payment_of). unfold select_and_submit. footprint. Qed.

Lemma check_and_pay_safe : safe (check_and_pay world self).
Proof.
  pose proof go_to_payment_safe. unfold check_and_pay. ends.
Qed.

(** Step e after a success: the payment step runs, and [True] is
    returned whatever that step returns. *)
Lemma check_and_pay_success h h1 :
  check_result world h = (Ok true, h1) ->
  check_and_pay world self h = (Ok true, snd (go_to_payment world self h1)).
Proof.
  intros Hc. unfold check_and_pay, bind at 1. rewrite Hc.
  unfold bind at 1, bind at 1.
  destruct (go_to_payment_safe h1) as [b Hb].
  destruct (go_to_payment world self h1) as [r h2]. simpl in *. by subst r.
Qed.

(** Step e after anything else: [False] is returned at once. *)
Lemma check_and_pay_other h h1 :
  check_result world h = (Ok false, h1) ->
  check_and_pay world self h = (Ok false, h1).
Proof. intros Hc. unfold check_and_pay, bind at 1. by rewrite Hc. Qed.

Lemma attempt_safe c s : safe (attempt world self c s).
Proof.
  pose proof check_and_pay_safe. pose proof select_and_submit_halts.
  unfold attempt. ends.
Qed.

(** A pass in which the order is submitted ends the loop with the
    value of step e. *)
Lemma attempt_submitted c s h h1 :
  select_and_submit world self c s h = (Ok true, h1) ->
  attempt world self c s h
  = (match fst (check_and_pay world self h1) with
     | Ok b => Ok (Return b)
     | _ => Ok Continue
     end, snd (check_and_pay world self h1)).
Proof.
  intros Hs. unfold attempt, try_except, bind at 1. rewrite Hs.
  unfold bind at 1. destruct (check_and_pay_safe h1) as [b Hb].
  destruct (check_and_pay world self h1) as [r h2]. simpl in *. by subst r.
Qed.

(** A pass that goes on to the next combination was not submitted, so
    it was neither classified nor paid. *)
Lemma attempt_continue_payments c s h h1 :
  attempt world self c s h = (Ok Continue, h1) -> payments h1 = payments h.
Proof.
  intros Ha.
  pose proof (select_and_submit_payments c s h) as Hp.
  pose proof (select_and_submit_halts c s h) as Hh.
  destruct (select_and_submit world self c s h) as [[[]|e|] h2] eqn:Hs.
  - rewrite (attempt_submitted _ _ _ _ Hs) in Ha.
    destruct (check_and_pay_safe h2) as [b Hb]. rewrite Hb in Ha. done.
  - unfold attempt, try_except, bind at 1 in Ha. rewrite Hs in Ha.
    simpl in Ha. by simplify_eq.
  - unfold attempt, try_except, bind at 1 in Ha. rewrite Hs in Ha.
    unfold bind, log, ret in Ha. simplify_eq. simpl in Hp.
    unfold payments in *. rewrite omap_app. simpl. by rewrite app_nil_r.
  - done.
Qed.

Lemma attempt_tried c s h :
  tried (snd (attempt world self c s h)) = tried h ++ [(c, s)].
Proof.
  pose proof (select_and_submit_tried c s h) as Hp.
  pose proof (select_and_submit_halts c s h) as Hh.
  unfold attempt.
  destruct (select_and_submit world self c s h) as [[b|e|] h2] eqn:Hs;
    simpl in Hp; [| |done].
  - rewrite (try_except_bind_ok _ _ _ _ _ _ Hs), <- Hp.
    apply (emits_mute trying_of).
    unfold check_and_pay, go_to_payment. footprint.
  - rewrite (try_except_bind_raise _ _ _ _ _ _ Hs), <- Hp.
    apply (emits_mute trying_of). footprint.
Qed.

(** [continues cs h h']: started in [h], the passes for the
    combinations [cs] each end in [continue]; [h'] is the history after
    the last one. *)
Inductive continues : list (string * string) -> history -> history -> Prop :=
  | continues_nil h : continues [] h h
  | continues_cons c s rest h h1 h2 :
      attempt world self c s h = (Ok Continue, h1) ->
      continues rest h1 h2 ->
      continues ((c, s) :: rest) h h2.

Lemma search_skip (pre rest : list (string * string)) h h1 :
  continues pre h h1 ->
  search world self (pre ++ rest) h = search world self rest h1.
Proof.
  induction 1 as [|c s pre h h1 h2 Ha _ IH]; [done|].
  rewrite <- IH. simpl. unfold bind at 1. by rewrite Ha.
Qed.

Lemma search_return c s rest h b h1 :
  attempt world self c s h = (Ok (Return b), h1) ->
  search world self ((c, s) :: rest) h = (Ok b, h1).
Proof. intros Ha. simpl. unfold bind at 1. by rewrite Ha. Qed.

Lemma continues_tried (cs : list (string * string)) h h1 :
  continues cs h h1 -> tried h1 = tried h ++ cs.
Proof.
  induction 1 as [|c s rest h h1 h2 Ha _ IH]; [by rewrite app_nil_r|].
  pose proof (attempt_tried c s h) as Ht. rewrite Ha in Ht. simpl in Ht.
  by rewrite IH, Ht, <- app_assoc.
Qed.

Lemma continues_payments (cs : list (string * string)) h h1 :
  continues cs h h1 -> payments h1 = payments h.
Proof.
  induction 1 as [|c s rest h h1 h2 Ha _ IH]; [done|].
  rewrite IH. by eapply attempt_continue_payments.
Qed.

(** Every run of the loop is of one of two kinds: a first pass that
    returns, after passes that all continued, or passes that all
    continue. *)
Lemma search_cases (cs : list (string * string)) h :
  (exists pre c s post h1 b h2,
      cs = pre ++ (c, s) :: post /\ continues pre h h1
      /\ attempt world self c s h1 = (Ok (Return b), h2))
  \/ (exists h1, continues cs h h1).
Proof.
  revert h. induction cs as [|[c s] cs IH]; intros h.
  - right. exists h. constructor.
  - destruct (attempt_safe c s h) as [f Hf].
    destruct (attempt world self c s h) as [r h1] eqn:Ha. simpl in Hf.
    subst r. destruct f as [|b].
    + destruct (IH h1) as [(pre & c' & s' & post & h2 & b & h3 & -> & Hc & Hr)
                          |(h2 & Hc)].
      * left. exists ((c, s) :: pre), c', s', post, h2, b, h3.
        split_and!; [done|by econstructor|done].
      * right. exists h2. by econstructor.
    + left. exists [], c, s, cs, h, b, h1.
      split_and!; [done|constructor|done].
Qed.

End Attempt.

Arguments continues_nil {world self}.

(** ** [random.shuffle] *)

Lemma swap_Permutation {A} (x : list A) i j : swap x i j ≡ₚ x.
Proof.
  unfold swap. destruct (x !! i) as [xi|] eqn:Hi; [|done].
  destruct (x !! j) as [xj|] eqn:Hj; [|done].
  by apply Permutation_insert_swap.
Qed.

(** The events before the search loop of [_execute_booking]. *)
Definition setup_event (e : event) : bool :=
  match e with
  | EvNow _ | EvRandbelow _ _ => true
  | EvLog _ MsgPhase2 | EvLog _ MsgSelectDate | EvLog _ (MsgOrder _ _) => true
  | _ => click_event e
  end.

Section Shuffle.

Variable world : World.

(** The shuffle returns, with a permutation of its argument, and only
    draws random numbers. *)
Lemma shuffle_from_Permutation {A} i (x : list A) h :
  exists y d,
    shuffle_from world i x h = (Ok y, h ++ d) /\ y ≡ₚ x
    /\ Forall (fun e => setup_event e = true) d.
Proof.
  revert x h. induction i as [|i IH]; intros x h.
  - exists x, []. by rewrite app_nil_r.
  - cbn [shuffle_from]. unfold bind at 1, randbelow at 1.
    destruct (IH (swap x (S i) (entropy world h `mod` S (S i))%nat)
                (h ++ [EvRandbelow (S (S i))
                         (entropy world h `mod` S (S i))%nat]))
      as (y & d & Hs & Hy & Hd).
    exists y, (EvRandbelow (S (S i)) (entropy world h `mod` S (S i))%nat :: d).
    rewrite Hs. split_and!.
    + by rewrite <- app_assoc.
    + by rewrite Hy, swap_Permutation.
    + by constructor.
Qed.

Lemma shuffle_Permutation {A} (x : list A) h :
  exists y d,
    shuffle world x h = (Ok y, h ++ d) /\ y ≡ₚ x
    /\ Forall (fun e => setup_event e = true) d.
Proof. apply shuffle_from_Permutation. Qed.

End Shuffle.

(** ** [_execute_booking] *)

Definition date_failed : exn := Exception "选择明天日期失败".

(** A step that returns and whose footprint is known, in front of a
    continuation. *)
Lemma bind_step {A B} p (m : M A) (k : A -> M B) h :
  safe m -> emits p m ->
  exists a d, Forall (fun e => p e = true) d
              /\ bind m k h = k a (h ++ d).
Proof.
  intros Hs He. destruct (Hs h) as [a Ha]. destruct (He h) as (d & Hd & Hp).
  exists a, d. split; [done|]. unfold bind.
  destruct (m h) as [r h1]. simpl in *. by subst.
Qed.

Section ExecuteBooking.

Variable world : World.
Variable self : Self.

(** The two ways [_execute_booking] goes: the date step fails and the
    call raises before the loop, or the loop runs over a permutation
    of the combinations.  Up to there only the events of the setup
    have happened; [d] is the clock reading the date selectors are
    built from. *)
Lemma _execute_booking_cases h :
  let h0 := h ++ [EvLog INFO MsgPhase2; EvLog INFO MsgSelectDate] in
  let d := wall world h0 in
  let date_step :=
    wait_and_click world self (date_selectors d) 5000 (h0 ++ [EvNow d]) in
  (fst date_step = Ok false
   /\ _execute_booking world self h = (Raise date_failed, snd date_step))
  \/ (fst date_step = Ok true
      /\ exists order h1 ev,
          order ≡ₚ combinations self
          /\ h1 = h ++ ev /\ Forall (fun e => setup_event e = true) ev
          /\ _execute_booking world self h = search world self order h1).
Proof.
  intros h0 d date_step.
  assert (_execute_booking world self h
          = (clicked <- wait_and_click world self (date_selectors d) 5000 ;;
             if negb clicked then raise date_failed
             else
               random_delay world self Fast ;;
               all_combinations <- shuffle world (combinations self) ;;
               log INFO (MsgOrder (length all_combinations)
                           all_combinations) ;;
               search world self all_combinations) (h0 ++ [EvNow d])) as Heq.
  { subst d h0. unfold _execute_booking.
    unfold bind at 1, log at 1. unfold bind at 1, log at 1.
    unfold bind at 1, now at 1. by rewrite <- !app_assoc. }
  unfold bind at 1 in Heq. fold date_step in Heq.
  destruct (wait_and_click_safe world self (date_selectors d) 5000
              (h0 ++ [EvNow d])) as [clicked Hc].
  destruct (wait_and_click_emits world self (date_selectors d) 5000
              (h0 ++ [EvNow d])) as (d1 & Hd1 & Hp1).
  fold date_step in Hc, Hd1.
  destruct date_step as [r h1]. simpl in *. subst r h1.
  destruct clicked; simpl in Heq; [right|left; by split].
  split; [done|].
  destruct (bind_step delay_event (random_delay world self Fast)
              (fun _ => all_combinations <- shuffle world (combinations self) ;;
                 log INFO (MsgOrder (length all_combinations)
                             all_combinations) ;;
                 search world self all_combinations)
              ((h0 ++ [EvNow d]) ++ d1)) as (? & d2 & Hp2 & Hb);
    [ends|footprint|].
  rewrite Hb in Heq. unfold bind at 1 in Heq.
  destruct (shuffle_Permutation world (combinations self)
              (((h0 ++ [EvNow d]) ++ d1) ++ d2))
    as (order & d3 & Hs & Hperm & Hp3).
  rewrite Hs in Heq. unfold bind at 1, log at 1 in Heq.
  eexists order, _,
    ([EvLog INFO MsgPhase2; EvLog INFO MsgSelectDate; EvNow d] ++ d1 ++ d2
       ++ d3 ++ [EvLog INFO (MsgOrder (length order) order)]).
  split_and!; [done| |..|exact Heq].
  - subst h0. by rewrite <- !app_assoc.
  - repeat first [apply Forall_app; split | apply Forall_cons; split
                 | apply Forall_nil]; try done.
    + eapply Forall_impl; [exact Hp1|]. intros e He. simpl in He.
      unfold setup_event. by destruct e as [[]| | | | | | | |[]|? []].
    + eapply Forall_impl; [exact Hp2|]. intros e He. simpl in He.
      unfold setup_event. by destruct e as [[]| | | | | | | |[]|? []].
Qed.

End ExecuteBooking.

(** ** The search and its results *)

(** The first pass whose order is submitted decides the call: the loop
    returns the value of [check_result], success or not. *)
Lemma search_first_verdict world self pre c s rest h h0 h1 b h2 :
  continues world self pre h h0 ->
  select_and_submit world self c s h0 = (Ok true, h1) ->
  check_result world h1 = (Ok b, h2) ->
  search world self (pre ++ (c, s) :: rest) h
  = (Ok b, if b then snd (go_to_payment world self h2) else h2).
Proof.
  intros Hpre Hs Hc. rewrite (search_skip _ _ _ _ _ _ Hpre).
  apply search_return. rewrite (attempt_submitted _ _ _ _ _ _ Hs).
  destruct b.
  - by rewrite (check_and_pay_success _ _ _ _ Hc).
  - by rewrite (check_and_pay_other _ _ _ _ Hc).
Qed.

(** C5: when the passes before a combination all continued, the order
    for that combination is submitted and [check_result] returns
    [True], the search returns [True].  Its history ends with the one
    call of [go_to_payment], whatever that call returns: one payment
    record is added, and the combinations tried are those up to the
    successful one. *)
Theorem search_stops_at_success world self pre court time_slot rest
    h h0 h1 h2 :
  continues world self pre h h0 ->
  select_and_submit world self court time_slot h0 = (Ok true, h1) ->
  check_result world h1 = (Ok true, h2) ->
  let out := search world self (pre ++ (court, time_slot) :: rest) h in
  fst out = Ok true
  /\ snd out = snd (go_to_payment world self h2)
  /\ payments (snd out) = payments h ++ [tt]
  /\ tried (snd out) = tried h ++ pre ++ [(court, time_slot)].
Proof.
  intros Hpre Hs Hc out. subst out.
  rewrite (search_first_verdict _ _ _ _ _ _ _ _ _ _ _ Hpre Hs Hc). simpl.
  split_and!; [done..| |].
  - rewrite go_to_payment_payments. f_equal.
    pose proof (emits_mute payment_of (check_result world) h1) as Hq.
    rewrite Hc in Hq. simpl in Hq. unfold payments.
    rewrite Hq by footprint.
    pose proof (select_and_submit_payments world self court time_slot h0)
      as Hp.
    rewrite Hs in Hp. simpl in Hp. unfold payments in Hp. rewrite Hp.
    by apply continues_payments in Hpre.
  - rewrite go_to_payment_tried.
    pose proof (emits_mute trying_of (check_result world) h1) as Hq.
    rewrite Hc in Hq. simpl in Hq. unfold tried.
    rewrite Hq by footprint.
    pose proof (select_and_submit_tried world self court time_slot h0) as Hp.
    rewrite Hs in Hp. simpl in Hp. unfold tried in Hp. rewrite Hp.
    apply continues_tried in Hpre. unfold tried in Hpre.
    by rewrite Hpre, <- app_assoc.
Qed.

(** A page on which the tab of court 1 and the payment button never
    show, and the success message does. *)
Definition no_court1_no_pay : World :=
  page_world
    (fun h o =>
       hidden ("uni-text:has-text(" +:+ quoted "1号场" +:+ ")") h o
       || hidden "text=1号场" h o
       || hidden ("text=" +:+ quoted "去支付") h o)
    "预约成功" (fun _ => morning).

Definition court1_first : list (string * string) :=
  [("1号场", "18:00-19:00"); ("2号场", "19:00-20:00");
   ("3号场", "20:00-21:00")].

Lemma search_stops_at_success_witness :
  fst (search no_court1_no_pay ci_self court1_first []) = Ok true
  /\ payments (snd (search no_court1_no_pay ci_self court1_first [])) = [tt]
  /\ tried (snd (search no_court1_no_pay ci_self court1_first []))
     = [("1号场", "18:00-19:00"); ("2号场", "19:00-20:00")]
  /\ last (snd (search no_court1_no_pay ci_self court1_first []))
     = Some (EvLog WARNING MsgPayMissing).
Proof.
  pose (h0 := snd (attempt no_court1_no_pay ci_self "1号场" "18:00-19:00" [])).
  pose (h1 := snd (select_and_submit no_court1_no_pay ci_self
                     "2号场" "19:00-20:00" h0)).
  pose (h2 := snd (check_result no_court1_no_pay h1)).
  assert (continues no_court1_no_pay ci_self [("1号场", "18:00-19:00")] [] h0)
    as Hpre by (econstructor; [by vm_compute|constructor]).
  assert (select_and_submit no_court1_no_pay ci_self "2号场" "19:00-20:00" h0
          = (Ok true, h1)) as Hs by (by vm_compute).
  assert (check_result no_court1_no_pay h1 = (Ok true, h2)) as Hc
    by (by vm_compute).
  destruct (search_stops_at_success no_court1_no_pay ci_self
              [("1号场", "18:00-19:00")] "2号场" "19:00-20:00"
              [("3号场", "20:00-21:00")] [] h0 h1 h2 Hpre Hs Hc)
    as (H1 & H2 & H3 & H4).
  split_and!; [exact H1|exact H3|exact H4|by vm_compute].
Defined.

(** The combinations are the cartesian product of the courts and the
    time slots. *)
Lemma combinations_product self c s :
  (c, s) ∈ combinations self <-> c ∈ courts self /\ s ∈ time_slots self.
Proof.
  unfold combinations. rewrite list_elem_of_bind. split.
  - intros (c' & Hin & Hc). apply list_elem_of_bind in Hin as (s' & Hin & Hs).
    apply list_elem_of_singleton in Hin. by simplify_eq.
  - intros [Hc Hs]. exists c. split; [|done].
    apply list_elem_of_bind. exists s. split; [|done].
    by apply list_elem_of_singleton.
Qed.

Lemma combinations_NoDup self :
  NoDup (courts self) -> NoDup (time_slots self) -> NoDup (combinations self).
Proof.
  intros Hc Hs. unfold combinations. apply NoDup_bind; [| |done].
  - intros c1 c2 [c s] _ _ H1 H2.
    apply list_elem_of_bind in H1 as (s1 & H1 & _).
    apply list_elem_of_bind in H2 as (s2 & H2 & _).
    apply list_elem_of_singleton in H1, H2. by simplify_eq.
  - intros c _. apply NoDup_bind; [| |done].
    + intros s1 s2 y _ _ H1 H2.
      apply list_elem_of_singleton in H1, H2. by simplify_eq.
    + intros s _. apply NoDup_singleton.
Qed.

Lemma search_exhausted world self (cs : list (string * string)) h h1 :
  continues world self cs h h1 ->
  search world self cs h = (Raise exhausted, h1).
Proof.
  intros Hc. pose proof (search_skip world self cs [] h h1 Hc) as Hs.
  by rewrite app_nil_r in Hs.
Qed.

Lemma setup_tried (ev : list event) h :
  Forall (fun e => setup_event e = true) ev -> tried (h ++ ev) = tried h.
Proof.
  intros Hev. unfold tried. rewrite omap_app, (omap_mute trying_of ev).
  - by rewrite app_nil_r.
  - eapply Forall_impl; [exact Hev|]. intros e He. simpl in He.
    by destruct e as [[]| | | | | | | |[]|? []].
Qed.

(** C4: in every run of [_execute_booking] the combinations tried, in
    order, are the first ones of a permutation of the cartesian product
    of the courts and the time slots.  None is tried twice, and when
    the run ends with the exhaustion failure all of them were tried. *)
Theorem tried_is_prefix_of_shuffle world self h :
  NoDup (courts self) ->
  NoDup (time_slots self) ->
  let out := _execute_booking world self h in
  exists order attempted,
    order ≡ₚ combinations self
    /\ (forall c s, (c, s) ∈ order <-> c ∈ courts self /\ s ∈ time_slots self)
    /\ tried (snd out) = tried h ++ attempted
    /\ attempted `prefix_of` order
    /\ NoDup attempted
    /\ (fst out = Raise exhausted -> attempted = order).
Proof.
  intros Hcourts Hslots out. subst out.
  pose proof (combinations_NoDup self Hcourts Hslots) as Hnd.
  destruct (_execute_booking_cases world self h)
    as [[Hd Heq]|(_ & order & h1 & ev & Hperm & -> & Hev & Heq)].
  - exists (combinations self), []. rewrite Heq. simpl.
    split_and!; [done|apply combinations_product| |apply prefix_nil
                |constructor|done].
    rewrite app_nil_r.
    pose proof (emits_mute trying_of
                  (wait_and_click world self
                     (date_selectors
                        (wall world
                           (h ++ [EvLog INFO MsgPhase2;
                                  EvLog INFO MsgSelectDate]))) 5000)) as Hm.
    unfold tried. rewrite Hm by footprint.
    by rewrite !omap_app, !app_nil_r.
  - assert (forall c s, (c, s) ∈ order
                        <-> c ∈ courts self /\ s ∈ time_slots self) as Hprod
      by (intros c s; rewrite Hperm; apply combinations_product).
    assert (NoDup order) as Hndo by by rewrite Hperm.
    rewrite Heq.
    destruct (search_cases world self order (h ++ ev))
      as [(pre & c & s & post & h2 & b & h3 & -> & Hpre & Ha)|(h2 & Hall)].
    + exists (pre ++ (c, s) :: post), (pre ++ [(c, s)]).
      rewrite (search_skip _ _ _ _ _ _ Hpre).
      rewrite (search_return _ _ _ _ _ _ _ _ Ha). simpl.
      split_and!; [done..| | | |done].
      * pose proof (attempt_tried world self c s h2) as Ht.
        rewrite Ha in Ht. simpl in Ht.
        apply continues_tried in Hpre.
        by rewrite Ht, Hpre, setup_tried, <- !app_assoc.
      * apply prefix_app, prefix_cons, prefix_nil.
      * apply NoDup_app in Hndo as (Hn1 & Hn2 & Hn3).
        apply NoDup_app. split_and!; [done| |apply NoDup_singleton].
        intros x Hx Hx'. apply list_elem_of_singleton in Hx'. subst x.
        apply (Hn2 _ Hx). by left.
    + exists order, order. rewrite (search_exhausted _ _ _ _ _ Hall). simpl.
      split_and!; [done..| |done|done|done].
      apply continues_tried in Hall. by rewrite Hall, setup_tried.
Qed.

(** A page on which no court tab ever shows. *)
Definition no_courts : World :=
  page_world
    (fun h o =>
       match o with
       | WaitFor s _ => String.prefix "uni-text" s || String.prefix "text=1" s
                        || String.prefix "text=2" s || String.prefix "text=3" s
       | _ => false
       end)
    "" (fun _ => morning).

Lemma tried_is_prefix_of_shuffle_witness :
  NoDup (courts ci_self) /\ NoDup (time_slots ci_self)
  /\ fst (_execute_booking no_courts ci_self []) = Raise exhausted
  /\ exists order attempted,
      order ≡ₚ combinations ci_self
      /\ (forall c s, (c, s) ∈ order
                      <-> c ∈ courts ci_self /\ s ∈ time_slots ci_self)
      /\ tried (snd (_execute_booking no_courts ci_self [])) = [] ++ attempted
      /\ attempted `prefix_of` order
      /\ NoDup attempted
      /\ (fst (_execute_booking no_courts ci_self []) = Raise exhausted
          -> attempted = order).
Proof.
  assert (NoDup (courts ci_self)) as Hc
    by (apply (bool_decide_unpack _); by vm_compute).
  assert (NoDup (time_slots ci_self)) as Hs
    by (apply (bool_decide_unpack _); by vm_compute).
  split_and!; [done|done|by vm_compute|].
  exact (tried_is_prefix_of_shuffle no_courts ci_self [] Hc Hs).
Defined.

(** [_execute_booking] ends, and the only exceptions that leave it
    are the failure of the date step and the exhaustion failure. *)
Lemma _execute_booking_outcomes world self h :
  (exists b, fst (_execute_booking world self h) = Ok b)
  \/ fst (_execute_booking world self h) = Raise date_failed
  \/ fst (_execute_booking world self h) = Raise exhausted.
Proof.
  destruct (_execute_booking_cases world self h)
    as [[_ ->]|(_ & order & h1 & ev & _ & _ & _ & ->)]; [by right; left|].
  destruct (search_cases world self order h1)
    as [(pre & c & s & post & h2 & b & h3 & -> & Hpre & Ha)|(h2 & Hall)].
  - left. exists b. rewrite (search_skip _ _ _ _ _ _ Hpre).
    by rewrite (search_return _ _ _ _ _ _ _ _ Ha).
  - right; right. by rewrite (search_exhausted _ _ _ _ _ Hall).
Qed.

(** C1 at a failing input.  On a page where every step works and
    neither the success nor the error message ever shows, the first
    combination is submitted and its result is undetermined; the call
    then returns [False], with one of the nine combinations tried and
    no exhaustion failure. *)
Theorem unknown_verdict_ends_the_search :
  let out := _execute_booking silent ci_self [] in
  fst out = Ok false
  /\ verdicts (snd out) = [Unknown]
  /\ length (tried (snd out)) = 1%nat
  /\ length (combinations ci_self) = 9%nat.
Proof. by vm_compute. Qed.

(** The same with a failure message on the page: the first
    combination classified [Failure] ends the search. *)
Lemma failure_verdict_ends_the_search :
  let out := _execute_booking refusing ci_self [] in
  fst out = Ok false
  /\ verdicts (snd out) = [Failure "预约失败，已达上限"]
  /\ length (tried (snd out)) = 1%nat.
Proof. by vm_compute. Qed.

(** A page on which no selector shows while between one and eight
    combinations have been announced, and on which the success and
    error messages never show: eight passes fail at the court tab, the
    ninth is submitted and stays undetermined. *)
Definition last_chance : World :=
  page_world
    (fun h o =>
       match o with
       | WaitFor s _ =>
           let n := length (tried h) in
           ((1 <=? n) && (n <? 9))%nat
           || String.eqb s success_pattern || String.eqb s error_pattern
       | _ => false
       end)
    "" (fun _ => morning).

(** C3 at a failing input.  The date step succeeds, all nine
    combinations are tried, none succeeds, and the call returns
    [False] instead of raising the exhaustion failure. *)
Theorem all_tried_without_success_returns :
  let out := _execute_booking last_chance ci_self [] in
  fst out = Ok false
  /\ tried (snd out) ≡ₚ combinations ci_self
  /\ verdicts (snd out) = [Unknown]
  /\ payments (snd out) = [].
Proof.
  split_and!; [by vm_compute|apply (bool_decide_unpack _); by vm_compute
              |by vm_compute..].
Qed.

(** ** [wait_until_target_time] *)

(** Today's date at 08:30:00.000, for the clock reading [d]. *)
Definition today_0830 (d : datetime) : datetime :=
  {| date_ord := date_ord d; hour := 8; minute := 30; second := 0;
     microsecond := 0 |}.

(** The history after [k] turns of the spin loop started in [h]: each
    turn reads the clock and sleeps one millisecond. *)
Fixpoint polled (world : World) (k : nat) (h : history) : history :=
  match k with
  | O => h
  | S k' => polled world k' (h ++ [EvNow (wall world h); EvSleep 1000])
  end.

(** A clock that shows 08:29:59.999 until the first sleep and then
    advances one millisecond a sleep from 08:30:00.000. *)
Definition ticking (h : history) : datetime :=
  match length (sleeps h) with
  | O => morning
  | S n => {| date_ord := 739463; hour := 8; minute := 30; second := 0;
              microsecond := Z.of_nat n * 1000 |}
  end.

Definition ticking_world : World := page_world (fun _ _ => false) "" ticking.

(** The moment 08:30:00.000000 itself. *)
Definition half_past_eight : datetime :=
  {| date_ord := 739463; hour := 8; minute := 30; second := 0;
     microsecond := 0 |}.

Lemma target_of_0830 self d :
  target_time self = "08:30:00:000" ->
  target_of self d
  = Ok (if dt_ge d (today_0830 d) then add_days (today_0830 d) 1
        else today_0830 d).
Proof. intros Ht. unfold target_of. rewrite Ht. reflexivity. Qed.

Section Spin.

Variable world : World.

(** The loop returns at the first turn whose clock reading is not
    before the target, and not earlier; it never raises. *)
Lemma spin_returns target k :
  forall fuel h,
    (k < fuel)%nat ->
    (forall j, (j < k)%nat ->
               dt_lt (wall world (polled world j h)) target = true) ->
    dt_lt (wall world (polled world k h)) target = false ->
    spin world fuel target h
    = (Ok tt, polled world k h ++ [EvNow (wall world (polled world k h))]).
Proof.
  induction k as [|k IH]; intros fuel h Hk Hbefore Hat.
  - destruct fuel as [|fuel]; [lia|]. simpl in *.
    unfold bind at 1, now at 1. by rewrite Hat.
  - destruct fuel as [|fuel]; [lia|]. cbn [spin].
    unfold bind at 1, now at 1.
    assert (dt_lt (wall world h) target = true) as ->
      by (apply (Hbefore 0%nat); lia).
    unfold bind at 1, sleep at 1. rewrite <- app_assoc. simpl app.
    rewrite (IH fuel); [done|lia| |done].
    intros j Hj. apply (Hbefore (S j)). lia.
Qed.

Lemma spin_outcome target :
  forall fuel h,
    (exists k, (k < fuel)%nat
               /\ (forall j, (j < k)%nat ->
                             dt_lt (wall world (polled world j h)) target = true)
               /\ dt_lt (wall world (polled world k h)) target = false
               /\ spin world fuel target h
                  = (Ok tt, polled world k h
                              ++ [EvNow (wall world (polled world k h))]))
    \/ ((forall j, (j < fuel)%nat ->
                   dt_lt (wall world (polled world j h)) target = true)
        /\ fst (spin world fuel target h) = Diverge).
Proof.
  induction fuel as [|fuel IH]; intros h.
  - right. split; [lia|done].
  - destruct (dt_lt (wall world h) target) eqn:Hlt.
    + destruct (IH (h ++ [EvNow (wall world h); EvSleep 1000]))
        as [(k & Hk & Hbefore & Hat & Hs)|[Hall Hd]].
      * left. exists (S k). split_and!; [lia| |done|].
        -- intros [|j] Hj; [done|]. apply Hbefore. lia.
        -- apply spin_returns; [lia| |done].
           intros [|j] Hj; [done|]. apply Hbefore. lia.
      * right. split.
        -- intros [|j] Hj; [done|]. apply Hall. lia.
        -- cbn [spin]. unfold bind at 1, now at 1. rewrite Hlt.
           unfold bind at 1, sleep at 1. by rewrite <- app_assoc.
    + left. exists 0%nat. split_and!; [lia|lia|done|].
      apply spin_returns; [lia|lia|done].
Qed.

End Spin.

(** C7, as the code has it.  In CI mode the call returns at once: it
    logs one record, reads no clock and never sleeps.  Otherwise the
    target is today's date at 08:30:00.000, moved forward by exactly
    one day when the clock reading is at or after that moment (equal
    included), and the call returns at the first clock reading of the
    spin loop that is not before the target: it returns then, not
    earlier, and never raises. *)
Theorem wait_until_target_time_waits world self fuel h :
  target_time self = "08:30:00:000" ->
  let out := wait_until_target_time world self fuel h in
  (is_ci self = true -> out = (Ok tt, h ++ [EvLog INFO MsgCI]))
  /\ (is_ci self = false ->
      let d := wall world h in
      let target := if dt_ge d (today_0830 d) then add_days (today_0830 d) 1
                    else today_0830 d in
      let hs := h ++ [EvNow d; EvLog INFO (MsgWaiting target)] in
      let at_turn k := wall world (polled world k hs) in
      (forall k,
          (k < fuel)%nat ->
          (forall j, (j < k)%nat -> dt_lt (at_turn j) target = true) ->
          dt_ge (at_turn k) target = true ->
          out = (Ok tt, polled world k hs
                          ++ [EvNow (at_turn k); EvLog INFO MsgTimeUp]))
      /\ (fst out = Ok tt ->
          exists k,
            (k < fuel)%nat
            /\ (forall j, (j < k)%nat -> dt_lt (at_turn j) target = true)
            /\ dt_ge (at_turn k) target = true
            /\ snd out = polled world k hs
                           ++ [EvNow (at_turn k); EvLog INFO MsgTimeUp])
      /\ (forall e, fst out <> Raise e)).
Proof.
  intros Ht out. split.
  - intros Hci. subst out. unfold wait_until_target_time. by rewrite Hci.
  - intros Hci d target hs at_turn. subst at_turn. cbv beta.
    assert (out = (spin world fuel target ;; log INFO MsgTimeUp) hs) as Hout.
    { subst out hs. unfold wait_until_target_time. rewrite Hci.
      unfold bind at 1, now at 1. fold d.
      unfold bind at 1, lift at 1. rewrite (target_of_0830 _ _ Ht).
      fold target. unfold bind at 1, log at 1. by rewrite <- app_assoc. }
    rewrite Hout. clear Hout out. unfold bind.
    destruct (spin_outcome world target fuel hs)
      as [(k & Hk & Hbefore & Hat & Hs)|[Hall Hd]].
    + rewrite Hs. simpl. split_and!; [| |done].
      * intros k' Hk' Hbefore' Hat'. unfold dt_ge in Hat'.
        apply negb_true_iff in Hat'.
        assert (k' = k) as ->.
        { destruct (lt_eq_lt_dec k' k) as [[Hlt|Heq]|Hgt]; [|done|].
          - specialize (Hbefore _ Hlt). congruence.
          - specialize (Hbefore' _ Hgt). congruence. }
        unfold log. simpl. by rewrite <- app_assoc.
      * intros _. exists k. unfold dt_ge. rewrite Hat.
        split_and!; [done..|]. unfold log. simpl. by rewrite <- app_assoc.
    + destruct (spin world fuel target hs) as [r h1]. simpl in Hd. subst r.
      simpl. split_and!; [|done|done].
      intros k Hk _ Hat. unfold dt_ge in Hat. apply negb_true_iff in Hat.
      specialize (Hall _ Hk). congruence.
Qed.

Lemma wait_until_target_time_waits_witness :
  target_time local_self = "08:30:00:000"
  /\ wait_until_target_time ticking_world ci_self 5 []
     = (Ok tt, [EvLog INFO MsgCI])
  /\ wait_until_target_time ticking_world local_self 5 []
     = (Ok tt, [EvNow morning; EvLog INFO (MsgWaiting half_past_eight);
                EvNow morning; EvSleep 1000; EvNow half_past_eight;
                EvLog INFO MsgTimeUp]).
Proof.
  split; [done|].
  destruct (wait_until_target_time_waits ticking_world ci_self 5 [] eq_refl)
    as [Hci _].
  destruct (wait_until_target_time_waits ticking_world local_self 5 [] eq_refl)
    as [_ Hlocal].
  destruct (Hlocal eq_refl) as (Hret & _ & _).
  split; [exact (Hci eq_refl)|].
  apply (Hret 1%nat); [lia| |done].
  intros [|j] Hj; [done|lia].
Defined.

(** C7 as stated fails at the boundary: a clock reading that is
    exactly 08:30:00.000000 is not past that time of day, and the
    target is moved to the next day all the same. *)
Lemma target_rolls_at_the_exact_instant :
  dt_cmp half_past_eight (today_0830 half_past_eight) = Eq
  /\ target_of local_self half_past_eight = Ok (add_days half_past_eight 1)
  /\ date_ord (add_days half_past_eight 1) = date_ord half_past_eight + 1.
Proof. by vm_compute. Qed.

(** ** [run] *)

Section Run.

Variable world : World.
Variable self : Self.
Variable fuel : nat.

(** The path of the screenshot the handler asks for in the history
    [h]. *)
Definition screenshot_path_at (h : history) : string :=
  "error_" +:+ str_of_Z (Z.quot (timer world h) 1000000) +:+ ".png".

(** The handler returns [False], after one screenshot request whose
    failure, if any, is logged and dropped. *)
Lemma on_error_returns e h :
  let h1 := h ++ [EvLog ERROR (MsgUnexpected (exn_str e))] in
  let path := screenshot_path_at h1 in
  let h2 := h1 ++ [EvTime (timer world h1)] in
  fst (on_error world e h) = Ok false
  /\ screenshots (snd (on_error world e h))
     = screenshots h ++ [(path, page_answer world h2 (Screenshot path))].
Proof.
  unfold on_error, try_except, bind, log, time, page, ret, screenshots,
    screenshot_path_at. simpl.
  destruct (page_answer world _ (Screenshot _)) eqn:Hp; simpl;
    (split; [done|]);
    repeat (rewrite omap_app; simpl); by rewrite ?app_nil_r.
Qed.


End Run.




(** ** The calendar behind the date step *)








(** ** The date step of [_execute_booking] *)



Section DateStep.

Variable world : World.
Variable self : Self.





End DateStep.

Example date_selectors_end_of_july :
  date_selectors {| date_ord := 739463; hour := 8; minute := 30;
                    second := 0; microsecond := 1 |}
  = ["text=明天"; "text=/-01/"; "text=/01/"].
Proof. reflexivity. Qed.

(** ** [__init__] and [do_login] *)

(** The warning of the branch of [do_login] that skips the login. *)
Definition skip_of (e : event) : option unit :=
  match e with
  | EvLog _ MsgLoginSkipped => Some tt
  | _ => None
  end.

(** What the login does on the page: a completed [fill], with the
    field and the value typed, or a completed click of
    [wait_and_click], with its selector. *)
Inductive action :=
  | Filled (field value : string)
  | Clicked (selector : string).

Definition action_of (e : event) : option action :=
  match e with
  | EvPage (Fill s v) None => Some (Filled s v)
  | EvPage (Click s None) None => Some (Clicked s)
  | _ => None
  end.

Definition login_skips (h : history) : list unit := omap skip_of h.
Definition actions (h : history) : list action := omap action_of h.

Definition outsider_login : string := "text=" +:+ quoted "校外人员登录".
Definition username_field : string := "input[type=" +:+ quoted "text" +:+ "]".
Definition password_field : string :=
  "input[type=" +:+ quoted "password" +:+ "]".
Definition login_button : string :=
  "uni-button:has-text(" +:+ quoted "立即登录" +:+ ")".

(** [__init__] returns an instance exactly when both variables are
    set and not empty, and raises [ValueError] otherwise; the instance
    keeps the two values. *)
Lemma __init___credentials getenv :
  (truthy (getenv "BOOKING_USERNAME") = true
   /\ truthy (getenv "BOOKING_PASSWORD") = true
   /\ exists self,
       __init__ getenv = Ok self
       /\ username self = getenv "BOOKING_USERNAME"
       /\ password self = getenv "BOOKING_PASSWORD")
  \/ ((truthy (getenv "BOOKING_USERNAME") = false
       \/ truthy (getenv "BOOKING_PASSWORD") = false)
      /\ __init__ getenv = Raise (ValueError missing_credentials)).
Proof.
  unfold __init__.
  destruct (truthy (getenv "BOOKING_USERNAME")) eqn:Hu;
    destruct (truthy (getenv "BOOKING_PASSWORD")) eqn:Hp; simpl;
    first [ left; split_and!; [done..|]; eexists; by split_and!
          | right; split; [|done]; auto ].
Qed.

(** The steps of a call that returned, one at a time. *)
Lemma bind_ok_inv {A B} (m : M A) (k : A -> M B) h b h' :
  bind m k h = (Ok b, h') ->
  exists a h1, m h = (Ok a, h1) /\ k a h1 = (Ok b, h').
Proof.
  unfold bind. destruct (m h) as [[a|e|] h1]; [|done..].
  intros Hk. by exists a, h1.
Qed.

Section Login.

Variable world : World.
Variable self : Self.

Lemma click_candidate_actions s t h :
  actions (snd (click_candidate world self s t h))
  = actions h
      ++ match fst (click_candidate world self s t h) with
         | Ok _ => [Clicked s]
         | _ => []
         end.
Proof.
  unfold click_candidate, random_delay, bind, page, page_url, uniform,
    sleep, log, actions.
  repeat (case_match; simplify_eq/=);
    repeat (rewrite omap_app; simpl); by rewrite ?app_nil_r.
Qed.

(** [wait_and_click] on one selector: [True] after a completed click
    on it, [False] without any. *)
Lemma wait_and_click_one_actions s t h :
  actions (snd (wait_and_click world self [s] t h))
  = actions h
      ++ match fst (wait_and_click world self [s] t h) with
         | Ok true => [Clicked s]
         | _ => []
         end.
Proof.
  pose proof (click_candidate_actions s t h) as Hc.
  pose proof (click_candidate_total world self t s h) as Hd.
  unfold wait_and_click.
  destruct (click_candidate world self s t h) as [[[]|e|] h1] eqn:Hcc;
    simpl in Hc, Hd; [| |done].
  - by rewrite (click_first_hit _ _ _ _ _ _ _ _ Hcc).
  - rewrite (click_first_miss _ _ _ _ _ _ _ _ _ Hcc). simpl.
    unfold actions in *. rewrite !omap_app. simpl. by rewrite Hc, !app_nil_r.
Qed.

Lemma page_ok_inv o h h' :
  page world o h = (Ok tt, h') -> h' = h ++ [EvPage o None].
Proof.
  unfold page. destruct (page_answer world h o); intros; by simplify_eq.
Qed.

Lemma do_login_halts : halts (do_login world self).
Proof. unfold do_login. ends. Qed.

End Login.

Definition entry_failed : exn := Exception "点击'校外人员登录'失败".

(** What a login completes on the page, in order. *)
Definition login_steps (u p : string) : list action :=
  [Clicked outsider_login; Filled username_field u;
   Filled password_field p; Clicked login_button].

Section LoginSteps.

Variable world : World.
Variable self : Self.

Lemma actions_page h o r :
  actions (h ++ [EvPage o r])
  = actions h ++ match action_of (EvPage o r) with
                 | Some a => [a]
                 | None => []
                 end.
Proof. unfold actions. rewrite omap_app. simpl. by case_match. Qed.

Lemma actions_log h l m : actions (h ++ [EvLog l m]) = actions h.
Proof. unfold actions. rewrite omap_app. simpl. by rewrite app_nil_r. Qed.

Lemma random_delay_actions p h :
  actions (snd (random_delay world self p h)) = actions h.
Proof. apply (emits_mute action_of). footprint. Qed.

(** A login with both values set: what it completes is an initial
    part of [login_steps], all of it when the call returns, and
    nothing when the entry for outsiders cannot be clicked. *)
Lemma do_login_steps u p h :
  username self = Some u -> password self = Some p ->
  u <> "" -> p <> "" ->
  let out := do_login world self h in
  let entry := wait_and_click world self [outsider_login] 5000
                 (h ++ [EvLog INFO MsgLogin]) in
  (exists n, actions (snd out) = actions h ++ take n (login_steps u p))
  /\ (fst out = Ok tt -> actions (snd out) = actions h ++ login_steps u p)
  /\ (fst entry = Ok false ->
      fst out = Raise entry_failed /\ actions (snd out) = actions h).
Proof.
  intros Eu Ep Hu Hp out entry. subst out.
  assert (truthy (username self) && truthy (password self) = true) as Ht.
  { rewrite Eu, Ep. destruct u, p; done. }
  destruct (do_login world self h) as [r hf] eqn:Hrun. simpl.
  unfold do_login in Hrun. rewrite Ht, Eu, Ep in Hrun. simpl in Hrun.
  fold outsider_login username_field password_field login_button in Hrun.
  unfold bind at 1, log at 1 in Hrun. unfold bind at 1 in Hrun.
  pose proof (wait_and_click_one_actions world self outsider_login 5000
                (h ++ [EvLog INFO MsgLogin])) as Ha1.
  destruct (wait_and_click_safe world self [outsider_login] 5000
              (h ++ [EvLog INFO MsgLogin])) as [b1 Hb1].
  fold entry in Ha1, Hb1, Hrun.
  destruct entry as [r1 h2]. simpl in Ha1, Hb1. subst r1.
  rewrite actions_log in Ha1.
  destruct b1; simpl in Hrun.
  2:{ injection Hrun as <- <-. rewrite app_nil_r in Ha1.
      split_and!; [exists 0%nat; by rewrite Ha1, app_nil_r|done|done]. }
  split_and!; [| |done].
  all: unfold bind at 1 in Hrun.
  all: unfold bind at 1, page at 1 in Hrun.
  all: destruct (page_answer world h2 (Fill username_field u)) as [e1|].
  all: try (injection Hrun as <- <-; rewrite actions_page; simpl;
            rewrite app_nil_r, Ha1;
            first [by exists 1%nat | done]).
  all: unfold bind at 1, page at 1 in Hrun.
  all: destruct (page_answer world _ (Fill password_field p)) as [e2|].
  all: try (injection Hrun as <- <-; rewrite !actions_page; simpl;
            rewrite app_nil_r, Ha1, <- app_assoc;
            first [by exists 2%nat | done]).
  all: unfold bind at 1 in Hrun.
  all: match type of Hrun with
       | context [random_delay world self Normal ?h3] =>
           pose proof (random_delay_actions Normal h3) as Hd;
           destruct (random_delay_safe world self Normal h3) as [[] Hs];
           destruct (random_delay world self Normal h3) as [rd h4];
           simpl in Hd, Hs; subst rd;
           rewrite !actions_page in Hd; simpl in Hd
       end.
  all: unfold bind at 1, log at 1 in Hrun. 
  all: unfold bind at 1 in Hrun.
  all: pose proof (wait_and_click_one_actions world self login_button 5000
                     (h4 ++ [EvLog INFO MsgFilled])) as Ha2.
  all: destruct (wait_and_click_safe world self [login_button] 5000
                   (h4 ++ [EvLog INFO MsgFilled])) as [b2 Hb2].
  all: destruct (wait_and_click world self [login_button] 5000 _)
         as [r2 h5]; simpl in Ha2, Hb2; subst r2;
       rewrite actions_log in Ha2.
  all: destruct b2; simpl in Hrun.
  all: try (injection Hrun as <- <-; rewrite Ha2, Hd, Ha1, app_nil_r,
              <- !app_assoc; first [by exists 3%nat | done]).
  all: unfold page in Hrun.
  all: destruct (page_answer world _ (WaitForLoadState _ _));
       injection Hrun as <- <-; rewrite actions_page, actions_log;
       simpl; rewrite app_nil_r, Ha2, Hd, Ha1, <- !app_assoc;
       first [by exists 4%nat | done].
Qed.

End LoginSteps.

(** A page on which the entry for outsiders never shows. *)
Definition no_entry : World :=
  page_world (hidden outsider_login) "" (fun _ => morning).

(** C10, as the code has it.  [__init__] raises [ValueError] when one
    of the two variables is missing or empty, so an instance that it
    returned has a user name and a password that are set and not
    empty.  For such an instance [do_login] never takes the branch that
    skips the login: no skip warning is logged.  The call ends, by
    returning or by raising.  What it completes on the page is an
    initial part of: click the outsider login, fill the user name, fill
    the password, click the login button, with the two values of the
    instance; it is all four when the call returns.  It is nothing when
    the outsider login cannot be clicked: the call then raises before
    it fills any field. *)
Theorem do_login_never_skips getenv self world h :
  __init__ getenv = Ok self ->
  let out := do_login world self h in
  let entry := wait_and_click world self [outsider_login] 5000
                 (h ++ [EvLog INFO MsgLogin]) in
  (forall env,
      truthy (env "BOOKING_USERNAME") = false
      \/ truthy (env "BOOKING_PASSWORD") = false ->
      __init__ env = Raise (ValueError missing_credentials))
  /\ exists u p,
    username self = Some u /\ password self = Some p
    /\ u <> "" /\ p <> ""
    /\ login_skips (snd out) = login_skips h
    /\ fst out <> Diverge
    /\ (fst out = Ok tt ->
        actions (snd out)
        = actions h ++ [Clicked outsider_login; Filled username_field u;
                        Filled password_field p; Clicked login_button])
    /\ (exists n, actions (snd out) = actions h ++ take n (login_steps u p))
    /\ (fst entry = Ok false ->
        fst out = Raise entry_failed /\ actions (snd out) = actions h).
Proof.
  intros Hinit out entry. split.
  { intros env Henv.
    destruct (__init___credentials env) as [(Hu & Hp & _)|[_ Hr]]; [|done].
    destruct Henv; congruence. }
  assert (truthy (username self) = true /\ truthy (password self) = true)
    as [Hu Hp].
  { destruct (__init___credentials getenv)
      as [(Hu & Hp & self' & Heq & Hus & Hps)|[_ Hr]]; [|congruence].
    rewrite Hinit in Heq. simplify_eq. by rewrite Hus, Hps. }
  destruct (username self) as [u|] eqn:Eu; [|done].
  destruct (password self) as [p|] eqn:Ep; [|done].
  assert (u <> "") as Hne1 by (by intros ->).
  assert (p <> "") as Hne2 by (by intros ->).
  destruct (do_login_steps world self u p h Eu Ep Hne1 Hne2)
    as (Hpre & Hok & Hfail).
  exists u, p. split_and!; [done|done|done|done| | |exact Hok|exact Hpre|exact Hfail].
  - apply (emits_mute skip_of). unfold do_login.
    rewrite Eu, Ep, Hu, Hp. simpl. footprint.
  - apply do_login_halts.
Qed.

Lemma do_login_never_skips_witness :
  __init__ local_env = Ok local_self
  /\ fst (do_login granting local_self []) = Ok tt
  /\ login_skips (snd (do_login granting local_self [])) = []
  /\ actions (snd (do_login granting local_self []))
     = [Clicked outsider_login; Filled username_field "player";
        Filled password_field "secret"; Clicked login_button].
Proof.
  destruct (do_login_never_skips local_env local_self granting []
              local_self_constructed)
    as (_ & u & p & Hu & Hp & _ & _ & Hskip & _ & Hok & _).
  injection Hu as <-. injection Hp as <-.
  split_and!; [reflexivity|by vm_compute|exact Hskip|].
  apply Hok. by vm_compute.
Defined.

(** With the outsider login hidden, the instance built from the
    environment raises at the first step of the login: no field is
    filled, and the login is not skipped either. *)
Lemma do_login_raises_before_filling :
  __init__ ci_env = Ok ci_self
  /\ fst (do_login no_entry ci_self []) = Raise entry_failed
  /\ actions (snd (do_login no_entry ci_self [])) = []
  /\ login_skips (snd (do_login no_entry ci_self [])) = [].
Proof. split_and!; by vm_compute. Qed.

(** ** Further properties of the delays and of the click primitive *)

(** X1, [random_delay]: the call returns after exactly one sleep.  In
    CI mode the sleep is 0.2 s and no random number is drawn;
    otherwise it lasts between 0.1 s and 0.3 s for the fast profile and
    between 0.5 s and 1.2 s for the normal one. *)
Theorem random_delay_bounds world self p h :
  exists d,
    fst (random_delay world self p h) = Ok tt
    /\ sleeps (snd (random_delay world self p h)) = sleeps h ++ [d]
    /\ (is_ci self = true ->
        d = 200000 /\ snd (random_delay world self p h) = h ++ [EvSleep d])
    /\ (is_ci self = false ->
        match p with
        | Fast => 100000 <= d <= 300000
        | Normal => 500000 <= d <= 1200000
        end).
Proof.
  unfold random_delay, sleeps. destruct (is_ci self).
  - exists 200000. unfold sleep. simpl. rewrite omap_app. by split_and!.
  - destruct p; unfold bind, uniform, sleep; simpl;
      eexists; (split_and!; [done| |done|]);
      try (repeat (rewrite omap_app; simpl); by rewrite ?app_nil_r);
      intros _.
    + pose proof (Z.mod_pos_bound (Z.of_nat (entropy world h))
                    (1200000 - 500000 + 1) ltac:(lia)). lia.
    + pose proof (Z.mod_pos_bound (Z.of_nat (entropy world h))
                    (300000 - 100000 + 1) ltac:(lia)). lia.
Qed.

Section ClickActions.

Variable world : World.
Variable self : Self.
Variable timeout : Z.

Lemma all_fail_actions (sels : list string) h h1 :
  all_fail world self timeout sels h h1 -> actions h1 = actions h.
Proof.
  induction 1 as [|s rest h e h1 h2 Hc _ IH]; [done|].
  rewrite IH. unfold actions. rewrite omap_app. simpl. rewrite app_nil_r.
  pose proof (click_candidate_actions world self s timeout h) as Ha.
  rewrite Hc in Ha. simpl in Ha. unfold actions in Ha.
  by rewrite Ha, app_nil_r.
Qed.

(** One call completes at most one click. *)
Lemma click_first_actions sels h :
  let out := click_first world self sels sels timeout h in
  (fst out = Ok true
   /\ exists s, s ∈ sels /\ actions (snd out) = actions h ++ [Clicked s])
  \/ (fst out = Ok false /\ actions (snd out) = actions h).
Proof.
  intros out. subst out.
  destruct (click_first_cases world self timeout sels h)
    as [(pre & s & post & h1 & Hsels & Hf & Hs)|(h1 & Hf)].
  - left.
    pose proof (click_first_skip world self timeout sels pre (s :: post)
                  h h1 Hf) as Hk.
    rewrite <- Hsels in Hk. rewrite Hk.
    pose proof (click_candidate_actions world self s timeout h1) as Ha.
    destruct (click_candidate world self s timeout h1) as [r h2] eqn:Hc.
    simpl in Hs. subst r.
    rewrite (click_first_hit _ _ _ _ _ _ _ _ Hc). simpl in *.
    split; [done|]. exists s. split.
    + rewrite Hsels. apply elem_of_app. right. by left.
    + by rewrite Ha, (all_fail_actions _ _ _ Hf).
  - right.
    pose proof (click_first_skip world self timeout sels sels [] h h1 Hf)
      as Hk.
    rewrite app_nil_r in Hk. rewrite Hk. simpl. split; [done|].
    unfold bind, log, ret, actions. simpl. rewrite omap_app. simpl.
    rewrite app_nil_r. by apply all_fail_actions in Hf.
Qed.

End ClickActions.

(** X2, [wait_and_click]: a call completes at most one click.  It
    returns [True] after exactly one completed click, on one of the
    candidates it was given, and [False] after none; it fills no
    field. *)
Theorem wait_and_click_clicks_once world self sels timeout h :
  let out := wait_and_click world self sels timeout h in
  (fst out = Ok true
   /\ exists s, s ∈ sels /\ actions (snd out) = actions h ++ [Clicked s])
  \/ (fst out = Ok false /\ actions (snd out) = actions h).
Proof. apply click_first_actions. Qed.

(** ** The date step *)





(** ** Further properties of the search *)

Section AttemptOutcome.

Variable world : World.
Variable self : Self.

Lemma select_and_submit_verdicts c s h :
  verdicts (snd (select_and_submit world self c s h)) = verdicts h.
Proof. apply (emits_mute verdict_of). unfold select_and_submit. footprint. Qed.

Lemma go_to_payment_verdicts h :
  verdicts (snd (go_to_payment world self h)) = verdicts h.
Proof. apply (emits_mute verdict_of). unfold go_to_payment. footprint. Qed.

Lemma check_result_payments h :
  payments (snd (check_result world h)) = payments h.
Proof. apply (emits_mute payment_of). footprint. Qed.

(** One pass of the loop: it continues without a verdict and without
    a payment, or it returns the value of its one verdict, after one
    payment step when that value is [True] and none otherwise. *)
Lemma attempt_outcome c s h :
  let out := attempt world self c s h in
  (fst out = Ok Continue
   /\ verdicts (snd out) = verdicts h /\ payments (snd out) = payments h)
  \/ (exists v,
         fst out = Ok (Return (returned v))
         /\ verdicts (snd out) = verdicts h ++ [v]
         /\ payments (snd out)
            = payments h ++ (if returned v then [tt] else [])).
Proof.
  intros out. subst out.
  pose proof (select_and_submit_verdicts c s h) as Hv.
  pose proof (select_and_submit_payments world self c s h) as Hp.
  pose proof (select_and_submit_halts world self c s h) as Hh.
  destruct (select_and_submit world self c s h) as [[[]|e|] h1] eqn:Hs;
    simpl in Hv, Hp, Hh; [| | |done].
  - right. rewrite (attempt_submitted _ _ _ _ _ _ Hs).
    destruct (check_result_verdict world h1) as (v & Hcv & Hcr).
    pose proof (check_result_payments h1) as Hcp.
    destruct (check_result world h1) as [r h2] eqn:Hc. simpl in *. subst r.
    exists v. destruct (returned v) eqn:Hret.
    + rewrite (check_and_pay_success _ _ _ _ Hc). simpl.
      rewrite go_to_payment_verdicts, go_to_payment_payments.
      by rewrite Hcv, Hcp, Hv, Hp.
    + rewrite (check_and_pay_other _ _ _ _ Hc). simpl.
      by rewrite Hcv, Hcp, Hv, Hp, app_nil_r.
  - left. unfold attempt. rewrite (try_except_bind_ok _ _ _ _ _ _ Hs).
    simpl. by rewrite Hv, Hp.
  - left. unfold attempt. rewrite (try_except_bind_raise _ _ _ _ _ _ Hs).
    unfold bind, log, ret, verdicts, payments in *. simpl.
    rewrite !omap_app. simpl. by rewrite Hv, Hp, !app_nil_r.
Qed.

(** The loop over any list of combinations. *)
Lemma search_outcome cs :
  forall h,
    let out := search world self cs h in
    (fst out = Raise exhausted
     /\ verdicts (snd out) = verdicts h /\ payments (snd out) = payments h)
    \/ (exists v,
           fst out = Ok (returned v)
           /\ verdicts (snd out) = verdicts h ++ [v]
           /\ payments (snd out)
              = payments h ++ (if returned v then [tt] else [])).
Proof.
  induction cs as [|[c s] cs IH]; intros h; simpl.
  - by left.
  - unfold bind.
    destruct (attempt_outcome c s h) as [(Hf & Hv & Hp)|(v & Hf & Hv & Hp)];
      destruct (attempt world self c s h) as [r h1]; simpl in *; subst r.
    + rewrite <- Hv, <- Hp. apply IH.
    + right. by exists v.
Qed.

Lemma setup_verdicts (ev : list event) h :
  Forall (fun e => setup_event e = true) ev -> verdicts (h ++ ev) = verdicts h.
Proof.
  intros Hev. unfold verdicts. rewrite omap_app, (omap_mute verdict_of ev).
  - by rewrite app_nil_r.
  - eapply Forall_impl; [exact Hev|]. intros e He. simpl in He.
    by destruct e as [[]| | | | | | | |[]|? []].
Qed.

Lemma setup_payments (ev : list event) h :
  Forall (fun e => setup_event e = true) ev -> payments (h ++ ev) = payments h.
Proof.
  intros Hev. unfold payments. rewrite omap_app, (omap_mute payment_of ev).
  - by rewrite app_nil_r.
  - eapply Forall_impl; [exact Hev|]. intros e He. simpl in He.
    by destruct e as [[]| | | | | | | |[]|? []].
Qed.

Lemma date_step_quiet h d :
  let out := wait_and_click world self (date_selectors d) 5000
               ((h ++ [EvLog INFO MsgPhase2; EvLog INFO MsgSelectDate])
                  ++ [EvNow d]) in
  verdicts (snd out) = verdicts h /\ payments (snd out) = payments h
  /\ tried (snd out) = tried h.
Proof.
  intros out. subst out. unfold verdicts, payments, tried.
  rewrite !(emits_mute _ (wait_and_click world self _ _)) by footprint.
  rewrite !omap_app. simpl. by rewrite !app_nil_r.
Qed.

(** A run raises one of its two failures without a verdict and
    without a payment step, or returns the value of its one verdict,
    after one payment step when that value is [True]. *)
Lemma _execute_booking_outcome h :
  let out := _execute_booking world self h in
  ((fst out = Raise date_failed \/ fst out = Raise exhausted)
   /\ verdicts (snd out) = verdicts h /\ payments (snd out) = payments h)
  \/ (exists v,
         fst out = Ok (returned v)
         /\ verdicts (snd out) = verdicts h ++ [v]
         /\ payments (snd out)
            = payments h ++ (if returned v then [tt] else [])).
Proof.
  intros out. subst out.
  destruct (_execute_booking_cases world self h)
    as [[Hd Heq]|(_ & order & h1 & ev & _ & -> & Hev & Heq)]; rewrite Heq.
  - left. simpl. split; [by left|]. split; apply date_step_quiet.
  - destruct (search_outcome order (h ++ ev))
      as [(Hf & Hv & Hp)|(v & Hf & Hv & Hp)];
      rewrite Hf, Hv, Hp, setup_verdicts, setup_payments by done.
    + left. split; [by right|done].
    + right. by exists v.
Qed.

End AttemptOutcome.

(** X3, [_execute_booking]: the payment step is started at most once
    in a run, and only for a success: the run has one more payment
    record when it returns [True], and none when it returns [False] or
    raises. *)
Theorem payment_only_after_success world self h :
  let out := _execute_booking world self h in
  payments (snd out)
  = payments h ++ match fst out with
                  | Ok true => [tt]
                  | _ => []
                  end.
Proof.
  intros out. subst out.
  destruct (_execute_booking_outcome world self h)
    as [([Hf|Hf] & _ & Hp)|(v & Hf & _ & Hp)]; rewrite Hf, Hp.
  - by rewrite app_nil_r.
  - by rewrite app_nil_r.
  - by destruct (returned v).
Qed.

(** X4, [_execute_booking]: [check_result] runs at most once in a
    run.  The run returns exactly when one verdict was logged, with
    [True] for the success verdict and [False] for the two others;
    without a verdict it raises, and then either the failure of the
    date step or the exhaustion failure, nothing else. *)
Theorem one_verdict_per_run world self h :
  let out := _execute_booking world self h in
  (exists v, fst out = Ok (returned v)
             /\ verdicts (snd out) = verdicts h ++ [v])
  \/ ((fst out = Raise date_failed \/ fst out = Raise exhausted)
      /\ verdicts (snd out) = verdicts h).
Proof.
  intros out. subst out.
  destruct (_execute_booking_outcome world self h)
    as [(Hf & Hv & _)|(v & Hf & Hv & _)].
  - by right.
  - left. by exists v.
Qed.

(** X5, [_execute_booking] on an empty grid: with no court or no time
    slot configured there is no combination, so the run tries nothing
    and classifies nothing; it raises the exhaustion failure as soon as
    the date step is over, or the failure of the date step. *)
Theorem empty_grid_is_exhausted world self h :
  courts self = [] \/ time_slots self = [] ->
  let out := _execute_booking world self h in
  (fst out = Raise date_failed \/ fst out = Raise exhausted)
  /\ tried (snd out) = tried h
  /\ verdicts (snd out) = verdicts h.
Proof.
  intros Hempty out. subst out.
  assert (combinations self = []) as Hnil.
  { unfold combinations. destruct Hempty as [-> | ->]; [done|].
    induction (courts self) as [|c cs IH]; [done|]. by simpl. }
  destruct (_execute_booking_cases world self h)
    as [[Hd Heq]|(_ & order & h1 & ev & Hperm & -> & Hev & Heq)]; rewrite Heq.
  - simpl. split; [by left|]. split; apply date_step_quiet.
  - rewrite Hnil in Hperm. apply Permutation_nil_r in Hperm. subst order.
    simpl. split; [by right|]. by rewrite setup_tried, setup_verdicts.
Qed.

(** An instance whose list of courts is empty. *)
Definition courtless_self : Self :=
  {| username := Some "player"; password := Some "secret";
     venue_name := "望江西区网球场";
     courts := [];
     time_slots := ["18:00-19:00"; "19:00-20:00"; "20:00-21:00"];
     target_time := "08:30:00:000";
     is_ci := true |}.

Lemma empty_grid_is_exhausted_witness :
  fst (_execute_booking granting courtless_self []) = Raise exhausted
  /\ tried (snd (_execute_booking granting courtless_self [])) = []
  /\ verdicts (snd (_execute_booking granting courtless_self [])) = [].
Proof.
  destruct (empty_grid_is_exhausted granting courtless_self []
              (or_introl eq_refl)) as (_ & Ht & Hv).
  split_and!; [by vm_compute|exact Ht|exact Hv].
Defined.

(** ** Further properties of the deadline *)

Lemma rbind_ok_inv {A B} (r : result A) (k : A -> result B) b :
  rbind r k = Ok b -> exists a, r = Ok a /\ k a = Ok b.
Proof. destruct r as [a|e|]; [|done..]. intros Hk. by exists a. Qed.

(** X6, [wait_until_target_time]: whatever time of day is configured,
    the target computed from a clock reading is strictly after that
    reading and at most one calendar day ahead of its date; it is a
    valid time of day on a whole millisecond. *)
Theorem target_is_ahead self d t :
  target_of self d = Ok t ->
  dt_lt d t = true
  /\ date_ord d <= date_ord t <= date_ord d + 1
  /\ 0 <= hour t < 24 /\ 0 <= minute t < 60 /\ 0 <= second t < 60
  /\ 0 <= microsecond t < 1000000 /\ microsecond t mod 1000 = 0.
Proof.
  intros Ht. unfold target_of in Ht.
  apply rbind_ok_inv in Ht as (p0 & _ & Ht).
  apply rbind_ok_inv in Ht as (hh & _ & Ht).
  apply rbind_ok_inv in Ht as (p1 & _ & Ht).
  apply rbind_ok_inv in Ht as (mm & _ & Ht).
  apply rbind_ok_inv in Ht as (p2 & _ & Ht).
  apply rbind_ok_inv in Ht as (ss & _ & Ht).
  apply rbind_ok_inv in Ht as (p3 & _ & Ht).
  apply rbind_ok_inv in Ht as (ms & _ & Ht).
  apply rbind_ok_inv in Ht as (t0 & Hrep & Ht).
  unfold replace_time in Hrep.
  destruct ((0 <=? hh) && (hh <? 24) && (0 <=? mm) && (mm <? 60)
            && (0 <=? ss) && (ss <? 60) && (0 <=? ms * 1000)
            && (ms * 1000 <? 1000000)) eqn:Hc; [|done].
  repeat (apply andb_prop in Hc as [Hc ?]).
  injection Hrep as <-. injection Ht as <-.
  assert ((ms * 1000) mod 1000 = 0) by (apply Z.mod_mul; lia).
  destruct (dt_ge d _) eqn:Hge; simpl.
  - split_and!; try lia. unfold dt_lt, dt_cmp. simpl.
    by replace (date_ord d ?= date_ord d + 1) with Lt
      by (symmetry; apply Z.compare_lt_iff; lia).
  - unfold dt_ge in Hge. apply negb_false_iff in Hge.
    split_and!; try lia. exact Hge.
Qed.

Lemma target_is_ahead_witness :
  target_of local_self morning = Ok half_past_eight
  /\ dt_lt morning half_past_eight = true.
Proof.
  assert (target_of local_self morning = Ok half_past_eight) as Ht
    by reflexivity.
  split; [exact Ht|]. exact (proj1 (target_is_ahead _ _ _ Ht)).
Defined.

(** The number of occurrences of a character. *)
Fixpoint count_char (c : ascii) (s : string) : nat :=
  match s with
  | EmptyString => 0
  | String c' s' => (if Ascii.eqb c' c then 1 else 0) + count_char c s'
  end.

Lemma split_length sep s : length (split sep s) = S (count_char sep s).
Proof.
  induction s as [|c s IH]; [done|]. simpl.
  destruct (Ascii.eqb c sep); simpl; [by rewrite IH|].
  destruct (split sep s); simpl in *; [done|]. exact IH.
Qed.

(** X7, [wait_until_target_time]: a configured time with fewer than
    four fields between colons, such as an hour, minute and second
    without milliseconds, makes the call raise right after its first
    clock reading, before any waiting, outside CI mode.  In CI mode the
    configured time is not read at all and the call returns. *)
Theorem short_target_time_raises world self fuel h :
  (count_char ":" (target_time self) < 3)%nat ->
  (is_ci self = false ->
   exists e, wait_until_target_time world self fuel h
             = (Raise e, h ++ [EvNow (wall world h)]))
  /\ (is_ci self = true ->
      wait_until_target_time world self fuel h
      = (Ok tt, h ++ [EvLog INFO MsgCI])).
Proof.
  intros Hshort. split; intros Hci; unfold wait_until_target_time;
    rewrite Hci; [|done].
  unfold bind at 1, now at 1. unfold bind at 1, lift at 1.
  assert (exists e, target_of self (wall world h) = Raise e) as [e ->];
    [|by exists e].
  unfold target_of.
  pose proof (split_length ":" (target_time self)) as Hlen.
  set (parts := split ":" (target_time self)) in *.
  assert (index parts 3 = Raise (IndexError "list index out of range")) as H3.
  { unfold index. rewrite lookup_ge_None_2; [done|lia]. }
  destruct (index parts 0) as [p0|e|] eqn:E0; simpl; [|by eexists|];
    [|by apply index_halts in E0].
  destruct (int p0) as [hh|e|] eqn:I0; simpl; [|by eexists|];
    [|by apply int_halts in I0].
  destruct (index parts 1) as [p1|e|] eqn:E1; simpl; [|by eexists|];
    [|by apply index_halts in E1].
  destruct (int p1) as [mm|e|] eqn:I1; simpl; [|by eexists|];
    [|by apply int_halts in I1].
  destruct (index parts 2) as [p2|e|] eqn:E2; simpl; [|by eexists|];
    [|by apply index_halts in E2].
  destruct (int p2) as [ss|e|] eqn:I2; simpl; [|by eexists|];
    [|by apply int_halts in I2].
  rewrite H3. simpl. by eexists.
Qed.

(** An instance configured with a time without milliseconds. *)
Definition seconds_only_self : Self :=
  {| username := Some "player"; password := Some "secret";
     venue_name := "望江西区网球场";
     courts := ["1号场"; "2号场"; "3号场"];
     time_slots := ["18:00-19:00"; "19:00-20:00"; "20:00-21:00"];
     target_time := "08:30:00";
     is_ci := false |}.

Lemma short_target_time_raises_witness :
  (count_char ":" (target_time seconds_only_self) < 3)%nat
  /\ exists e, wait_until_target_time ticking_world seconds_only_self 5 []
               = (Raise e, [EvNow morning]).
Proof.
  assert (count_char ":" (target_time seconds_only_self) < 3)%nat as Hs
    by (vm_compute; lia).
  split; [exact Hs|].
  exact (proj1 (short_target_time_raises ticking_world seconds_only_self 5 []
                  Hs) eq_refl).
Defined.

(** ** Further properties of [check_result] and [go_to_payment] *)

(** X8, [check_result]: a success message that shows but whose text
    cannot be read (the read raises, or yields [None], which has no
    [strip]) is not reported as a success: the call goes on to look
    for the failure message and returns [False]. *)
Theorem unread_success_is_not_success world h :
  let h0 := h ++ [EvLog INFO MsgChecking] in
  let h1 := h0 ++ [EvPage (WaitFor success_pattern 4000) None] in
  let out := check_result world h in
  page_answer world h0 (WaitFor success_pattern 4000) = None ->
  (forall s, text_answer world h1 success_pattern 500 <> inr (Some s)) ->
  fst out = Ok false
  /\ waited (snd out) = waited h ++ [success_pattern; error_pattern].
Proof.
  intros h0 h1 out Hs Ht. subst out h1 h0.
  cbv beta iota zeta delta [check_result try_except bind page text_content
                              strip_text log ret raise].
  rewrite Hs. cbv beta iota zeta.
  destruct (text_answer world _ success_pattern 500) as [e|[s|]] eqn:Hr;
    [|by destruct (Ht s)|];
    cbv beta iota zeta; unfold waited;
    repeat (case_match; simplify_eq/=);
    repeat (rewrite omap_app; simpl); rewrite ?app_nil_r;
    by rewrite <- ?app_assoc.
Qed.

(** A page on which every element shows and no text can be read. *)
Definition unreadable : World :=
  {| page_answer := fun _ _ => None;
     url_answer := fun _ => "http://cgzx.scu.edu.cn/venue/booking";
     text_answer := fun _ _ _ => inr None;
     wall := fun _ => morning;
     timer := fun h => Z.of_nat (length h) * 1000;
     entropy := fun h => length h;
     session_answer := fun _ _ => None;
     re_answer := literal_patterns |}.

Lemma unread_success_is_not_success_witness :
  fst (check_result unreadable []) = Ok false
  /\ waited (snd (check_result unreadable []))
     = [success_pattern; error_pattern].
Proof.
  apply (unread_success_is_not_success unreadable []); [reflexivity|].
  intros s. discriminate.
Defined.

Definition pay_button : string := "text=" +:+ quoted "去支付".

(** X9, [go_to_payment]: the call never raises, and its value tells
    whether the payment button was clicked: [True] after one completed
    click on it, [False] without any click, the last record then being
    the warning that the button was not found. *)
Theorem go_to_payment_reports_click world self h :
  let out := go_to_payment world self h in
  (fst out = Ok true
   /\ actions (snd out) = actions h ++ [Clicked pay_button])
  \/ (fst out = Ok false
      /\ actions (snd out) = actions h
      /\ last (snd out) = Some (EvLog WARNING MsgPayMissing)).
Proof.
  intros out. subst out.
  cbv beta iota zeta delta [go_to_payment bind log ret].
  change ("text=" +:+ quoted "去支付") with pay_button.
  pose proof (wait_and_click_one_actions world self pay_button 5000
                (h ++ [EvLog INFO MsgPayTry])) as Ha.
  destruct (wait_and_click_safe world self [pay_button] 5000
              (h ++ [EvLog INFO MsgPayTry])) as [b Hb].
  fold pay_button.
  destruct (wait_and_click world self [pay_button] 5000 _) as [r h1].
  simpl in Ha, Hb. subst r.
  unfold actions in *. rewrite omap_app in Ha. simpl in Ha.
  rewrite app_nil_r in Ha.
  destruct b; [left|right]; simpl.
  - split; [done|]. rewrite omap_app. simpl. by rewrite app_nil_r.
  - split_and!; [done| |by rewrite last_snoc].
    rewrite omap_app. simpl. by rewrite Ha, !app_nil_r.
Qed.

(** ** The time slot of a pass *)

(** The text a pass asks the page to click for its time slot. *)
Definition text_click_of (e : event) : option string :=
  match e with
  | EvPage (ClickText regex _) _ => Some regex
  | _ => None
  end.

Definition text_clicks (h : history) : list string := omap text_click_of h.

Lemma split_absent sep s : count_char sep s = 0%nat -> split sep s = [s].
Proof.
  induction s as [|c s IH]; [done|]. simpl.
  destruct (Ascii.eqb c sep); [done|]. simpl. intros Hs. by rewrite IH.
Qed.

Lemma split_first sep a b :
  count_char sep a = 0%nat ->
  split sep (a +:+ String sep b) = a :: split sep b.
Proof.
  induction a as [|c a IH]; simpl.
  - by rewrite Ascii.eqb_refl.
  - destruct (Ascii.eqb c sep); [done|]. simpl. intros Ha. by rewrite IH.
Qed.

Section Slot.

Variable world : World.
Variable self : Self.

Definition court_selectors (court : string) : list string :=
  ["uni-text:has-text(" +:+ quoted court +:+ ")"; "text=" +:+ court].

Lemma select_and_submit_court_missed c s h h1 :
  wait_and_click world self (court_selectors c) 1500
    (h ++ [EvLog INFO (MsgTrying c s)]) = (Ok false, h1) ->
  select_and_submit world self c s h
  = (Ok false, h1 ++ [EvLog WARNING (MsgNoCourtTab c)]).
Proof.
  intros Hw. unfold select_and_submit.
  unfold bind at 1, log at 1. unfold bind at 1.
  fold (court_selectors c). by rewrite Hw.
Qed.

Lemma text_clicks_click h sels t :
  text_clicks (snd (wait_and_click world self sels t h)) = text_clicks h.
Proof. apply (emits_mute text_click_of). footprint. Qed.

Lemma text_clicks_delay h p :
  text_clicks (snd (random_delay world self p h)) = text_clicks h.
Proof. apply (emits_mute text_click_of). footprint. Qed.

End Slot.

Lemma count_char_app sep a b :
  count_char sep (a +:+ b) = (count_char sep a + count_char sep b)%nat.
Proof.
  induction a as [|c a IH]; [done|].
  change (String c a +:+ b) with (String c (a +:+ b)).
  simpl. rewrite IH. lia.
Qed.

Lemma append_assoc (a b c : string) : (a +:+ b) +:+ c = a +:+ (b +:+ c).
Proof.
  induction a as [|x a IH]; [done|].
  change ((String x a +:+ b) +:+ c) with (String x ((a +:+ b) +:+ c)).
  by rewrite IH.
Qed.

Section SlotClick.

Variable world : World.
Variable self : Self.

(** What follows the click on the time slot in a pass. *)
Definition after_slot (court time_slot : string) : M bool :=
  random_delay world self Fast ;;
  page world (Click confirm_button (Some 1000)) ;;
  page world (WaitFor submit_button 2000) ;;
  log INFO (MsgLocked court time_slot) ;;
  clicked <- wait_and_click world self [submit_button] 5000 ;;
  if negb clicked then log WARNING MsgSubmitFailed ;; ret false
  else ret true.

Lemma after_slot_text_clicks c s h :
  text_clicks (snd (after_slot c s h)) = text_clicks h.
Proof. apply (emits_mute text_click_of). unfold after_slot. footprint. Qed.

(** The pass from the time slot on, once the court tab is clicked. *)
Lemma select_and_submit_slot c s h h1 :
  wait_and_click world self (court_selectors c) 1500
    (h ++ [EvLog INFO (MsgTrying c s)]) = (Ok true, h1) ->
  select_and_submit world self c s h
  = (random_delay world self Fast ;;
     end_time <- lift (index (split "-" s) 1) ;;
     start <- lift (index (split "-" s) 0) ;;
     start_hour_text <- lift (index (split ":" start) 0) ;;
     time_regex <- lift (re_compile world (start_hour_text +:+ ":00 - "
                                            +:+ end_time +:+ ".*￥")) ;;
     page world (ClickText time_regex 1000) ;;
     after_slot c s) h1.
Proof.
  intros Hw. unfold select_and_submit. cbv zeta.
  unfold bind at 1, log at 1. unfold bind at 1.
  fold (court_selectors c). by rewrite Hw.
Qed.

Lemma slot_text_clicks c s h e st hh :
  index (split "-" s) 1 = Ok e ->
  index (split "-" s) 0 = Ok st ->
  index (split ":" st) 0 = Ok hh ->
  text_clicks (snd (select_and_submit world self c s h))
  = text_clicks h
      ++ match fst (wait_and_click world self (court_selectors c) 1500
                      (h ++ [EvLog INFO (MsgTrying c s)])),
               re_answer world (hh +:+ ":00 - " +:+ e +:+ ".*￥") with
         | Ok true, None => [hh +:+ ":00 - " +:+ e +:+ ".*￥"]
         | _, _ => []
         end.
Proof.
  intros He Hs Hh.
  pose proof (text_clicks_click world self
                (h ++ [EvLog INFO (MsgTrying c s)]) (court_selectors c) 1500)
    as Hf.
  destruct (wait_and_click_safe world self (court_selectors c) 1500
              (h ++ [EvLog INFO (MsgTrying c s)])) as [b Hb].
  destruct (wait_and_click world self (court_selectors c) 1500 _)
    as [r h1] eqn:Hw.
  simpl in Hf, Hb. subst r.
  assert (text_clicks h1 = text_clicks h) as Hh1.
  { rewrite Hf. unfold text_clicks. rewrite omap_app. simpl.
    by rewrite app_nil_r. }
  destruct b; simpl.
  - rewrite (select_and_submit_slot _ _ _ _ Hw).
    unfold bind at 1.
    pose proof (text_clicks_delay world self h1 Fast) as Hd.
    destruct (random_delay_safe world self Fast h1) as [[] Hr].
    destruct (random_delay world self Fast h1) as [r h2].
    simpl in Hd, Hr. subst r.
    rewrite He. unfold bind at 1, lift at 1.
    rewrite Hs. unfold bind at 1, lift at 1.
    rewrite Hh. unfold bind at 1, lift at 1.
    unfold bind at 1, lift at 1, re_compile.
    destruct (re_answer world _) as [err|]; simpl.
    { by rewrite Hd, Hh1, app_nil_r. }
    unfold bind at 1, page at 1.
    destruct (page_answer world h2 _); simpl.
    + unfold text_clicks in *. rewrite omap_app. simpl.
      by rewrite Hd, Hh1.
    + rewrite after_slot_text_clicks. unfold text_clicks in *.
      rewrite omap_app. simpl. by rewrite Hd, Hh1.
  - rewrite (select_and_submit_court_missed _ _ _ _ _ _ Hw). simpl.
    unfold text_clicks in *. rewrite omap_app. simpl.
    by rewrite Hh1, !app_nil_r.
Qed.

End SlotClick.

(** X10, [_execute_booking], the time slot of a pass: for a slot
    written [H:M-E], the pattern the pass hands to [re.compile] is
    [H:00 - E.*￥]; the minutes [M] of the start time are not used.
    Once the court tab is clicked and the pattern compiles, the pass
    asks for one click, on the text of that pattern.  When the court
    tab is not clicked, or when [re.compile] raises, no slot is
    clicked. *)
Theorem slot_click_drops_start_minutes world self c hh mm e h :
  count_char ":" hh = 0%nat -> count_char "-" hh = 0%nat ->
  count_char "-" mm = 0%nat -> count_char "-" e = 0%nat ->
  let slot := hh +:+ ":" +:+ mm +:+ "-" +:+ e in
  let pattern := hh +:+ ":00 - " +:+ e +:+ ".*￥" in
  text_clicks (snd (select_and_submit world self c slot h))
  = text_clicks h
      ++ match fst (wait_and_click world self (court_selectors c) 1500
                      (h ++ [EvLog INFO (MsgTrying c slot)])),
               re_answer world pattern with
         | Ok true, None => [pattern]
         | _, _ => []
         end.
Proof.
  intros Hh1 Hh2 Hm He slot pattern. subst pattern.
  assert (split "-" slot = [hh +:+ ":" +:+ mm; e]) as Hsplit.
  { subst slot.
    replace (hh +:+ ":" +:+ mm +:+ "-" +:+ e)
      with ((hh +:+ ":" +:+ mm) +:+ String "-" e)
      by (rewrite append_assoc; simpl; by rewrite append_assoc).
    rewrite split_first, (split_absent _ e He); [done|].
    rewrite !count_char_app, Hh2, Hm. done. }
  assert (split ":" (hh +:+ ":" +:+ mm) = hh :: split ":" mm) as Hstart
    by (by apply (split_first ":" hh mm)).
  apply (slot_text_clicks world self c slot h e (hh +:+ ":" +:+ mm) hh).
  - by rewrite Hsplit.
  - by rewrite Hsplit.
  - by rewrite Hstart.
Qed.

Lemma slot_click_drops_start_minutes_witness :
  text_clicks (snd (select_and_submit granting ci_self "1号场" "18:30-19:00" []))
  = ["18:00 - 19:00.*￥"]
  /\ text_clicks
       (snd (select_and_submit granting ci_self "1号场" "(18:30-19:00" []))
     = [].
Proof.
  split.
  - exact (slot_click_drops_start_minutes granting ci_self "1号场"
             "18" "30" "19:00" [] eq_refl eq_refl eq_refl eq_refl).
  - exact (slot_click_drops_start_minutes granting ci_self "1号场"
             "(18" "30" "19:00" [] eq_refl eq_refl eq_refl eq_refl).
Defined.

Section SlotWithoutDash.

Variable world : World.
Variable self : Self.


End SlotWithoutDash.



(** ** The session of [run] *)

(** The calls on the Playwright session and on the terminal, in
    order. *)
Definition session_of (e : event) : option session_op :=
  match e with
  | EvSession o _ => Some o
  | _ => None
  end.

Definition sessions (h : history) : list session_op := omap session_of h.

(** What [run] calls before the booking flow, and after it. *)
Definition opening (self : Self) : list session_op :=
  [PlaywrightStart; Launch (is_ci self); NewContext; NewPage].

Definition closing (self : Self) : list session_op :=
  (if is_ci self then []
   else [Print keep_open_hint; Input "按 Enter 键关闭浏览器..."])
  ++ [BrowserClose].

Section Flow.

Variable world : World.
Variable self : Self.
Variable fuel : nat.

Lemma spin_page_only p n target :
  (forall d, p (EvNow d) = true) -> (forall us, p (EvSleep us) = true) ->
  emits p (spin world n target).
Proof.
  intros Hn Hs. induction n as [|n IH]; simpl; [apply emits_diverge|].
  apply emits_bind; [by apply emits_now|]. intros d.
  destruct (dt_lt d target); [|apply emits_ret].
  apply emits_bind; [by apply emits_sleep|]. intros _. exact IH.
Qed.

Lemma shuffle_setup {A} (x : list A) : emits setup_event (shuffle world x).
Proof.
  intros h. destruct (shuffle_Permutation world x h) as (y & d & -> & _ & Hd).
  by exists d.
Qed.

Lemma booking_flow_sessions h :
  sessions (snd (booking_flow world self fuel h)) = sessions h.
Proof.
  apply (emits_mute session_of).
  assert (forall cs, emits (mute session_of) (search world self cs)) as Hsearch.
  { induction cs as [|[c s] cs IH]; simpl; [apply emits_raise|].
    apply emits_bind; [|intros []; [exact IH|apply emits_ret]].
    unfold attempt, select_and_submit, check_and_pay, go_to_payment.
    footprint. }
  assert (forall x : list (string * string),
             emits (mute session_of) (shuffle world x)) as Hshuffle.
  { intros x. eapply emits_weaken; [|apply shuffle_setup]. event_cases. }
  assert (forall t, emits (mute session_of) (spin world fuel t)) as Hspin
    by (intros t; by apply spin_page_only).
  unfold booking_flow, booking_sequence, on_error, _login_and_prepare,
    do_login, wait_until_target_time, _execute_booking.
  footprint.
Qed.

End Flow.

Section Lifecycle.

Variable world : World.
Variable self : Self.
Variable fuel : nat.

Lemma sessions_snoc h o r :
  sessions (h ++ [EvSession o r]) = sessions h ++ [o].
Proof. unfold sessions. by rewrite omap_app. Qed.

(** The [finally] clause calls the terminal and closes the browser,
    in the order of [closing], as far as the calls complete. *)
Lemma cleanup_sessions h :
  let out := cleanup world self h in
  exists n,
    (1 <= n <= length (closing self))%nat
    /\ sessions (snd out) = sessions h ++ take n (closing self)
    /\ fst out <> Diverge
    /\ (fst out = Ok tt -> n = length (closing self)).
Proof.
  unfold cleanup, closing, bind, session, ret.
  destruct (is_ci self); simpl.
  - exists 1%nat. rewrite sessions_snoc.
    split_and!; [lia|lia|done| |done]. by case_match.
  - destruct (session_answer world h (Print keep_open_hint)) eqn:Hp; simpl.
    { exists 1%nat. rewrite sessions_snoc. split_and!; [lia|lia|done..]. }
    destruct (session_answer world _ (Input _)) eqn:Hi; simpl.
    { exists 2%nat. rewrite !sessions_snoc, <- app_assoc.
      split_and!; [lia|lia|done..]. }
    exists 3%nat. rewrite !sessions_snoc, <- !app_assoc.
    split_and!; [lia|lia|done| |done]. by case_match.
Qed.

(** The booking flow under its [finally] clause. *)
Lemma guarded_flow_sessions h :
  let out := try_finally (booking_flow world self fuel) (cleanup world self) h in
  fst out <> Diverge ->
  exists n,
    (1 <= n <= length (closing self))%nat
    /\ sessions (snd out) = sessions h ++ take n (closing self)
    /\ ((exists b, fst out = Ok b) -> n = length (closing self)).
Proof.
  intros out. subst out. unfold try_finally.
  pose proof (booking_flow_sessions world self fuel h) as Hf.
  destruct (booking_flow world self fuel h) as [r h1]. simpl in Hf.
  destruct (cleanup_sessions h1) as (n & Hn & Hs & Hd & Hok).
  destruct (cleanup world self h1) as [c h2]. simpl in *.
  rewrite Hf in Hs.
  destruct r as [b|e|]; [| |by intros []];
    (destruct c as [[]|e'|]; simpl; intros _; exists n;
     (split; [done|]); (split; [done|]);
     first [by intros [? [=]] | by auto]).
Qed.

End Lifecycle.

(** X12, [run], the session: a run that ends has made its session
    and terminal calls in one fixed order, as far as it got: start
    Playwright, launch the browser (headless exactly in CI mode), new
    context, new page, then, after the booking flow and outside CI
    mode only, the hint and the prompt for Enter, then the closing of
    the browser.  Playwright is stopped last in every run that got past
    its start; a run that returns a value made every one of these
    calls. *)
Theorem run_session_lifecycle world self fuel h :
  let out := run world self fuel h in
  let steps := opening self ++ closing self in
  fst out <> Diverge ->
  exists n,
    (1 <= n <= length steps)%nat
    /\ sessions (snd out)
       = sessions h ++ take n steps
           ++ (if (n =? 1)%nat then [] else [PlaywrightStop])
    /\ ((exists b, fst out = Ok b) -> n = length steps).
Proof.
  intros out steps. subst out steps.
  assert (length (opening self ++ closing self)
          = (4 + length (closing self))%nat) as Hlen by done.
  rewrite Hlen.
  destruct (run world self fuel h) as [r hr] eqn:Hrun. simpl.
  unfold run in Hrun.
  unfold bind at 1, session at 1 in Hrun. cbv beta iota zeta in Hrun.
  destruct (session_answer world h PlaywrightStart) eqn:H0.
  { injection Hrun as <- <-. intros _. exists 1%nat.
    rewrite sessions_snoc. simpl.
    split_and!; [lia|lia|done|by intros [? [=]]]. }
  unfold try_finally at 1 in Hrun.
  unfold bind at 1, session at 1 in Hrun. cbv beta iota zeta in Hrun.
  destruct (session_answer world _ (Launch _)) eqn:H1.
  { unfold session in Hrun. cbv beta iota zeta in Hrun.
    intros _. exists 2%nat.
    destruct (session_answer world _ PlaywrightStop);
      injection Hrun as <- <-; rewrite !sessions_snoc, <- !app_assoc;
      (split_and!; [lia|lia|done|by intros [? [=]]]). }
  unfold bind at 1, session at 1 in Hrun. cbv beta iota zeta in Hrun.
  destruct (session_answer world _ NewContext) eqn:H2.
  { unfold session in Hrun. cbv beta iota zeta in Hrun.
    intros _. exists 3%nat.
    destruct (session_answer world _ PlaywrightStop);
      injection Hrun as <- <-; rewrite !sessions_snoc, <- !app_assoc;
      (split_and!; [lia|lia|done|by intros [? [=]]]). }
  unfold bind at 1, session at 1 in Hrun. cbv beta iota zeta in Hrun.
  destruct (session_answer world _ NewPage) eqn:H3.
  { unfold session in Hrun. cbv beta iota zeta in Hrun.
    intros _. exists 4%nat.
    destruct (session_answer world _ PlaywrightStop);
      injection Hrun as <- <-; rewrite !sessions_snoc, <- !app_assoc;
      (split_and!; [lia|lia|done|by intros [? [=]]]). }
  match type of Hrun with
  | context [try_finally _ _ ?h0] =>
      pose proof (guarded_flow_sessions world self fuel h0) as Hg;
      destruct (try_finally (booking_flow world self fuel)
                  (cleanup world self) h0) as [r1 h1]
  end.
  simpl in Hg. rewrite !sessions_snoc, <- !app_assoc in Hg. simpl in Hg.
  unfold session in Hrun.
  destruct r1 as [b|e|]; cbv beta iota zeta in Hrun;
    [| |injection Hrun as <- <-; by intros []];
    (destruct Hg as (n & Hn & Hs & Hok); [done|]);
    intros _; exists (4 + n)%nat;
    replace (4 + n =? 1)%nat with false by (symmetry; apply Nat.eqb_neq; lia);
    (destruct (session_answer world h1 PlaywrightStop);
     injection Hrun as <- <-; rewrite sessions_snoc, Hs, <- !app_assoc;
     (split_and!; [lia|lia|done|])).
  - by intros [? [=]].
  - intros _. rewrite Hok; [done|]. by exists b.
  - by intros [? [=]].
  - by intros [? [=]].
Qed.

(** A clock that shows 08:29:59.999 until the wait for the target
    time is announced, and 08:30:00.000 from then on; and a page that
    grants everything under that clock. *)
Definition announced (e : event) : bool :=
  match e with
  | EvLog _ (MsgWaiting _) => true
  | _ => false
  end.

Definition punctual (h : history) : datetime :=
  if existsb announced h then half_past_eight else morning.

Definition punctual_world : World :=
  page_world (fun _ _ => false) "预约成功" punctual.

Lemma run_session_lifecycle_witness :
  sessions (snd (run punctual_world local_self 5 []))
  = [PlaywrightStart; Launch false; NewContext; NewPage;
     Print keep_open_hint; Input "按 Enter 键关闭浏览器..."; BrowserClose;
     PlaywrightStop].
Proof.
  assert (fst (run punctual_world local_self 5 []) = Ok true) as Hr
    by (vm_compute; reflexivity).
  assert (fst (run punctual_world local_self 5 []) <> Diverge) as Hd
    by (rewrite Hr; discriminate).
  destruct (run_session_lifecycle punctual_world local_self 5 [] Hd)
    as (n & Hn & Hs & Hok).
  rewrite Hs, Hok; [done|]. by exists true.
Defined.

(** ** The preparation and the whole flow *)

Definition home : string := "http://cgzx.scu.edu.cn/venue/".

Definition venue_selector (self : Self) : string :=
  "text=" +:+ quoted (venue_name self).

Definition booking_selectors : list string :=
  ["uni-button:has-text(" +:+ quoted "场馆预约" +:+ ")";
   "text=场馆预约"; "uni-button"].

Section Prepare.

Variable world : World.
Variable self : Self.

Lemma log_ok_inv l m h h' :
  log l m h = (Ok tt, h') -> h' = h ++ [EvLog l m].
Proof. by intros [= <-]. Qed.

End Prepare.

(** X13, [_login_and_prepare]: a preparation that returns has opened
    the home page, logged in, and then completed exactly two more
    clicks: one on the text of the configured venue, then one on a
    candidate of the booking button. *)
Theorem prepare_clicks_venue_then_booking world self h h' :
  _login_and_prepare world self h = (Ok tt, h') ->
  exists hl s,
    do_login world self
      (h ++ [EvLog INFO MsgPhase1; EvLog INFO MsgOpenHome;
             EvPage (Goto home) None]) = (Ok tt, hl)
    /\ s ∈ booking_selectors
    /\ actions h' = actions hl ++ [Clicked (venue_selector self); Clicked s].
Proof.
  intros Hrun. unfold _login_and_prepare in Hrun.
  unfold bind at 1, log at 1 in Hrun. unfold bind at 1, log at 1 in Hrun.
  apply bind_ok_inv in Hrun as ([] & h1 & Hgoto & Hrun).
  apply page_ok_inv in Hgoto. subst h1. rewrite <- !app_assoc in Hrun.
  apply bind_ok_inv in Hrun as ([] & hl & Hlogin & Hrun).
  unfold bind at 1, log at 1 in Hrun.
  apply bind_ok_inv in Hrun as (b & hv & Hvenue & Hrun).
  pose proof (wait_and_click_one_actions world self (venue_selector self) 5000
                (hl ++ [EvLog INFO (MsgVenue (venue_name self))])) as Hav.
  unfold venue_selector in Hav. rewrite Hvenue in Hav. simpl in Hav.
  rewrite actions_log in Hav.
  destruct b; [|done]. cbv beta iota zeta delta [negb] in Hrun.
  apply bind_ok_inv in Hrun as ([] & hd & Hdelay & Hrun).
  pose proof (random_delay_actions world self Normal hv) as Had.
  rewrite Hdelay in Had. simpl in Had.
  unfold bind at 1, log at 1 in Hrun.
  apply bind_ok_inv in Hrun as (b & hb & Hbook & Hrun).
  destruct (click_first_actions world self 5000 booking_selectors
              (hd ++ [EvLog INFO MsgBookingButton]))
    as [(_ & s & Hs & Has)|(Hf & _)];
    unfold booking_selectors in *; fold (wait_and_click world self) in *.
  - rewrite actions_log in Has.
    unfold wait_and_click in Hbook. rewrite Hbook in Has. simpl in Has.
    destruct b; [|done]. simpl in Hrun. apply log_ok_inv in Hrun. subst h'.
    exists hl, s. split_and!; [done|done|].
    by rewrite actions_log, Has, Had, Hav, <- app_assoc.
  - unfold wait_and_click in Hbook. rewrite Hbook in Hf. simpl in Hf.
    injection Hf as ->. done.
Qed.

Lemma prepare_clicks_venue_then_booking_witness :
  exists hl s,
    do_login granting ci_self
      [EvLog INFO MsgPhase1; EvLog INFO MsgOpenHome; EvPage (Goto home) None]
    = (Ok tt, hl)
    /\ s ∈ booking_selectors
    /\ actions (snd (_login_and_prepare granting ci_self []))
       = actions hl ++ [Clicked (venue_selector ci_self); Clicked s].
Proof.
  apply (prepare_clicks_venue_then_booking granting ci_self []).
  by vm_compute.
Defined.

Section FlowPayments.

Variable world : World.
Variable self : Self.
Variable fuel : nat.

Lemma prepare_payments h :
  payments (snd (_login_and_prepare world self h)) = payments h.
Proof.
  apply (emits_mute payment_of). unfold _login_and_prepare, do_login.
  footprint.
Qed.

Lemma wait_payments h :
  payments (snd (wait_until_target_time world self fuel h)) = payments h.
Proof.
  apply (emits_mute payment_of).
  assert (forall t, emits (mute payment_of) (spin world fuel t))
    by (intros t; by apply spin_page_only).
  unfold wait_until_target_time. footprint.
Qed.

Lemma on_error_payments e h :
  payments (snd (on_error world e h)) = payments h.
Proof. apply (emits_mute payment_of). unfold on_error. footprint. Qed.

Lemma booking_sequence_payments h :
  let out := booking_sequence world self fuel h in
  payments (snd out)
  = payments h ++ match fst out with
                  | Ok true => [tt]
                  | _ => []
                  end.
Proof.
  intros out. subst out.
  destruct (booking_sequence world self fuel h) as [r hs] eqn:Hrun. simpl.
  unfold booking_sequence in Hrun. unfold bind at 1 in Hrun.
  pose proof (prepare_payments h) as Hp.
  destruct (_login_and_prepare world self h) as [[[]|e|] h1]; simpl in Hp;
    [|injection Hrun as <- <-; by rewrite Hp, app_nil_r..].
  unfold bind at 1 in Hrun.
  pose proof (wait_payments h1) as Hw.
  destruct (wait_until_target_time world self fuel h1) as [[[]|e|] h2];
    simpl in Hw; [|injection Hrun as <- <-; by rewrite Hw, Hp, app_nil_r..].
  unfold bind at 1, time at 1 in Hrun. unfold bind at 1 in Hrun.
  destruct (_execute_booking_outcome world self
              (h2 ++ [EvTime (timer world h2)]))
    as [([Hf|Hf] & _ & He)|(v & Hf & _ & He)];
    destruct (_execute_booking world self _) as [r3 h3]; simpl in Hf, He;
    subst r3; unfold payments in *; rewrite omap_app in He; simpl in He;
    rewrite app_nil_r in He.
  - injection Hrun as <- <-. by rewrite He, Hw, Hp, app_nil_r.
  - injection Hrun as <- <-. by rewrite He, Hw, Hp, app_nil_r.
  - unfold bind, time, log, ret in Hrun. injection Hrun as <- <-.
    rewrite !omap_app. simpl.
    rewrite !app_nil_r, He, Hw, Hp. by destruct (returned v).
Qed.

End FlowPayments.

(** X14, [run], the [try] statement: the payment step is started only
    in a flow that yields [True], and then once.  A flow that yields
    [False], whether [_execute_booking] returned [False] or a step
    raised, and a flow still waiting for the target time, have not
    started it. *)
Theorem flow_pays_only_for_true world self fuel h :
  let out := booking_flow world self fuel h in
  payments (snd out)
  = payments h ++ match fst out with
                  | Ok true => [tt]
                  | _ => []
                  end.
Proof.
  intros out. subst out. unfold booking_flow, try_except.
  pose proof (booking_sequence_payments world self fuel h) as Hs.
  destruct (booking_sequence world self fuel h) as [[b|e|] h1];
    simpl in Hs; [done| |done].
  pose proof (on_error_returns world e h1) as [Hr _].
  rewrite on_error_payments, Hs, app_nil_r.
  destruct (on_error world e h1) as [r h2]. simpl in Hr. subst r.
  by rewrite app_nil_r.
Qed.
